(** * TexasHoldemGym: the table state machine of [texasholdem.py]

    A shallow embedding of [Player] and [TexasHoldemEnv] and the properties
    of dealer/blind rotation, blind posting, dealing and phase advancement.

    Conventions of the embedding.
    - Chip amounts ([stack], [small_blind], [stake], ...) are Python numbers;
      they are modelled as unbounded integers [Z].  Only [<], [+] and the
      constant [0] are applied to them by the code.
    - Seat indices are Python ints used to subscript the list [players];
      they are [Z], and subscripting follows Python: a negative index counts
      from the end, anything else out of range raises [IndexError].
    - A method of [TexasHoldemEnv] mutates [self] and may raise.  It is a
      computation [M A]: from the object's state to an outcome (a value or
      the exception raised) and the state the object is left in.  The state
      reached at the point of a [raise] is kept, as it is in Python. *)

From Stdlib Require Import Sorted.
From stdpp Require Import base numbers list.

Local Open Scope Z_scope.

(** ** Exceptions and outcomes *)

Inductive exn : Type :=
  | IndexError
  | ZeroDivisionError
  | TypeError
  | ValueError
  | DeckExhausted.

Inductive result (A : Type) : Type :=
  | Ok (a : A)
  | Raise (e : exn).
Arguments Ok {A} a.
Arguments Raise {A} e.

Definition is_ok {A} (r : result A) : bool :=
  match r with Ok _ => true | Raise _ => false end.

(** ** Python list subscripting and [%] *)

(** Position designated by the subscript [i] in a list of length [n]. *)
Definition py_pos (n : nat) (i : Z) : option nat :=
  if decide (0 <= i < Z.of_nat n) then Some (Z.to_nat i)
  else if decide (- Z.of_nat n <= i < 0) then Some (Z.to_nat (i + Z.of_nat n))
  else None.

(** [l[i]] *)
Definition py_get {A} (l : list A) (i : Z) : result A :=
  match py_pos (length l) i with
  | Some k => match l !! k with Some x => Ok x | None => Raise IndexError end
  | None => Raise IndexError
  end.

(** [l[i].field = v], as the update [f] of the element. *)
Definition py_alter {A} (f : A -> A) (l : list A) (i : Z) : result (list A) :=
  match py_pos (length l) i with
  | Some k => Ok (alter f k l)
  | None => Raise IndexError
  end.

(** [a % n] for a length [n]. *)
Definition py_mod (a : Z) (n : nat) : result Z :=
  match n with
  | O => Raise ZeroDivisionError
  | S _ => Ok (a mod Z.of_nat n)
  end.

(** ** The deck collaborator *)

Module Deck.

(** Modelled from the spec: the module [deckcard] with the class [Deck] is
    imported by [texasholdem.py] but is not among the sources.  Following
    the spec's section 6, a deck holds the cards that remain; [draw n]
    removes and returns [n] of them (without replacement) and fails with
    [DeckExhausted] when fewer than [n] remain; [reset] restores a full,
    freshly shuffled deck of 52 cards.  The deck's random choices are made
    explicit: the remaining cards are listed in the order in which they
    will be drawn, and [reset] receives the order of the fresh deck. *)
Definition card : Type := nat.

Definition t : Type := list card.

Definition full : t := seq 0 52.

(** A legitimate outcome of a shuffle of the full deck. *)
Definition shuffled (d : t) : Prop := d ≡ₚ full.

Definition draw_random (n : nat) (d : t) : result (list card) * t :=
  if decide (n <= length d)%nat then (Ok (take n d), drop n d)
  else (Raise DeckExhausted, d).

Definition reset (fresh : t) (d : t) : t := fresh.

End Deck.

(** ** class Player *)

Module Player.

Record t : Type := mk {
  id : Z;
  stack : Z;
  cards : list Deck.card;
  is_active : bool;
  is_all_in : bool;
  is_dealer : bool;
  is_small_blind : bool;
  is_big_blind : bool
}.

(** [Player.__init__] *)
Definition init (id_in : Z) (stack0 : Z) : t :=
  {| id := id_in; stack := stack0; cards := [];
     is_active := true; is_all_in := false; is_dealer := false;
     is_small_blind := false; is_big_blind := false |}.

(** [Player.reset] *)
Definition reset (p : t) : t :=
  {| id := id p; stack := stack p; cards := [];
     is_active := false; is_all_in := false; is_dealer := false;
     is_small_blind := false; is_big_blind := false |}.

(** Attribute assignments [p.field = v]. *)
Definition set_stack (v : Z) (p : t) : t :=
  {| id := id p; stack := v; cards := cards p;
     is_active := is_active p; is_all_in := is_all_in p;
     is_dealer := is_dealer p; is_small_blind := is_small_blind p;
     is_big_blind := is_big_blind p |}.

Definition set_cards (v : list Deck.card) (p : t) : t :=
  {| id := id p; stack := stack p; cards := v;
     is_active := is_active p; is_all_in := is_all_in p;
     is_dealer := is_dealer p; is_small_blind := is_small_blind p;
     is_big_blind := is_big_blind p |}.

Definition set_is_active (v : bool) (p : t) : t :=
  {| id := id p; stack := stack p; cards := cards p;
     is_active := v; is_all_in := is_all_in p;
     is_dealer := is_dealer p; is_small_blind := is_small_blind p;
     is_big_blind := is_big_blind p |}.

Definition set_is_all_in (v : bool) (p : t) : t :=
  {| id := id p; stack := stack p; cards := cards p;
     is_active := is_active p; is_all_in := v;
     is_dealer := is_dealer p; is_small_blind := is_small_blind p;
     is_big_blind := is_big_blind p |}.

Definition set_is_dealer (v : bool) (p : t) : t :=
  {| id := id p; stack := stack p; cards := cards p;
     is_active := is_active p; is_all_in := is_all_in p;
     is_dealer := v; is_small_blind := is_small_blind p;
     is_big_blind := is_big_blind p |}.

Definition set_is_small_blind (v : bool) (p : t) : t :=
  {| id := id p; stack := stack p; cards := cards p;
     is_active := is_active p; is_all_in := is_all_in p;
     is_dealer := is_dealer p; is_small_blind := v;
     is_big_blind := is_big_blind p |}.

Definition set_is_big_blind (v : bool) (p : t) : t :=
  {| id := id p; stack := stack p; cards := cards p;
     is_active := is_active p; is_all_in := is_all_in p;
     is_dealer := is_dealer p; is_small_blind := is_small_blind p;
     is_big_blind := v |}.

End Player.

(** ** The enumerations *)

(** [class Action(Enum)]: the values of its members. *)
Inductive Action : Type := FOLD | CALL | RAISE.

Definition Action_value (a : Action) : Z :=
  match a with FOLD => 0 | CALL => 1 | RAISE => 2 end.

Inductive Phase : Type := PREFLOP | FLOP | TURN | RIVER | SHOWDOWN.

Inductive StateMachine : Type :=
  | DRAW_CARD | DRAW_TWO_CARDS | DRAW_THREE_CARDS
  | ASK_ACTION | START_GAME | END_GAME.


(** [self.game_state] holds a [StateMachine] member in [__init__] and a
    [Phase] member from [reset] on. *)
Inductive GameState : Type :=
  | InMachine (m : StateMachine)
  | InPhase (p : Phase).

(** [self.__table]: the dict with the keys [Phase.FLOP], [Phase.TURN] and
    [Phase.RIVER]; [None] is Python's [None]. *)
Record Table : Type := mkTable {
  slot_flop : option (list Deck.card);
  slot_turn : option (list Deck.card);
  slot_river : option (list Deck.card)
}.

Definition empty_table : Table :=
  {| slot_flop := None; slot_turn := None; slot_river := None |}.

(** ** class TexasHoldemEnv *)

Module TexasHoldemEnv.

(** The attributes of the object.  [action_space] and
    [observation_space] are the constant [spaces.Discrete(3)]. *)
Record t : Type := mk {
  initial_stack : Z;
  players : list Player.t;
  small_blind : Z;
  big_blind : Z;
  active_players : list Z;       (* assigned in [__init__] only *)
  table : Table;                 (* [self.__table] *)
  game_state : GameState;
  stake : option Z;              (* [None] until the first [reset] *)
  max_steps : Z;
  deck : Deck.t;
  dealer_id : Z;
  players_active : list Z
}.

Definition set_players (v : list Player.t) (s : t) : t :=
  {| initial_stack := initial_stack s; players := v;
     small_blind := small_blind s; big_blind := big_blind s;
     active_players := active_players s; table := table s;
     game_state := game_state s; stake := stake s;
     max_steps := max_steps s; deck := deck s;
     dealer_id := dealer_id s; players_active := players_active s |}.

Definition set_table (v : Table) (s : t) : t :=
  {| initial_stack := initial_stack s; players := players s;
     small_blind := small_blind s; big_blind := big_blind s;
     active_players := active_players s; table := v;
     game_state := game_state s; stake := stake s;
     max_steps := max_steps s; deck := deck s;
     dealer_id := dealer_id s; players_active := players_active s |}.

Definition set_game_state (v : GameState) (s : t) : t :=
  {| initial_stack := initial_stack s; players := players s;
     small_blind := small_blind s; big_blind := big_blind s;
     active_players := active_players s; table := table s;
     game_state := v; stake := stake s;
     max_steps := max_steps s; deck := deck s;
     dealer_id := dealer_id s; players_active := players_active s |}.

Definition set_stake (v : option Z) (s : t) : t :=
  {| initial_stack := initial_stack s; players := players s;
     small_blind := small_blind s; big_blind := big_blind s;
     active_players := active_players s; table := table s;
     game_state := game_state s; stake := v;
     max_steps := max_steps s; deck := deck s;
     dealer_id := dealer_id s; players_active := players_active s |}.

Definition set_deck (v : Deck.t) (s : t) : t :=
  {| initial_stack := initial_stack s; players := players s;
     small_blind := small_blind s; big_blind := big_blind s;
     active_players := active_players s; table := table s;
     game_state := game_state s; stake := stake s;
     max_steps := max_steps s; deck := v;
     dealer_id := dealer_id s; players_active := players_active s |}.

Definition set_dealer_id (v : Z) (s : t) : t :=
  {| initial_stack := initial_stack s; players := players s;
     small_blind := small_blind s; big_blind := big_blind s;
     active_players := active_players s; table := table s;
     game_state := game_state s; stake := stake s;
     max_steps := max_steps s; deck := deck s;
     dealer_id := v; players_active := players_active s |}.

Definition set_players_active (v : list Z) (s : t) : t :=
  {| initial_stack := initial_stack s; players := players s;
     small_blind := small_blind s; big_blind := big_blind s;
     active_players := active_players s; table := table s;
     game_state := game_state s; stake := stake s;
     max_steps := max_steps s; deck := deck s;
     dealer_id := dealer_id s; players_active := v |}.

(** *** Methods as computations on the object *)

Definition M (A : Type) : Type := t -> result A * t.

Definition ret {A} (a : A) : M A := fun s => (Ok a, s).

Definition bind {A B} (m : M A) (k : A -> M B) : M B :=
  fun s =>
    match m s with
    | (Ok a, s') => k a s'
    | (Raise e, s') => (Raise e, s')
    end.

Definition raise {A} (e : exn) : M A := fun s => (Raise e, s).

(** Read an expression of the attributes; assign to attributes. *)
Definition gets {A} (f : t -> A) : M A := fun s => (Ok (f s), s).

Definition modify (f : t -> t) : M unit := fun s => (Ok tt, f s).

(** An expression that may raise, evaluated without touching [self]. *)
Definition lift {A} (r : result A) : M A := fun s => (r, s).

Notation "'let!' x ':=' m 'in' k" := (bind m (fun x => k))
  (at level 10, x name, m at level 100, k at level 200, only parsing).
Notation "m ';;' k" := (bind m (fun _ => k))
  (at level 100, k at level 200, right associativity, only parsing).

(** [self.players[i]] *)
Definition player_at (i : Z) : M Player.t :=
  let! ps := gets players in lift (py_get ps i).

(** [self.players[i].field = v] *)
Definition update_player (i : Z) (f : Player.t -> Player.t) : M unit :=
  let! ps := gets players in
  let! ps' := lift (py_alter f ps i) in
  modify (set_players ps').

(** [[idx for idx, player in enumerate(ps) if player.is_active]], with
    the enumeration counting from [idx]. *)
Fixpoint active_from (idx : Z) (ps : list Player.t) : list Z :=
  match ps with
  | [] => []
  | player :: ps' =>
      if Player.is_active player then idx :: active_from (idx + 1) ps'
      else active_from (idx + 1) ps'
  end.

(** [_get_active_players] *)
Definition _get_active_players : M (list Z) :=
  gets (fun s => active_from 0 (players s)).

(** The [while] loop of [__get_next_active_player_id].  [fuel] is
    [max_loop - idx_loop]: the guard first subscripts
    [self.players[next_player]] (which may raise), leaves the loop when
    that seat is the dealer, and only then compares [idx_loop] with
    [max_loop]. *)
Fixpoint scan (fuel : nat) (ps : list Player.t) (next_player : Z)
  : result Z :=
  match py_get ps next_player with
  | Raise e => Raise e
  | Ok p =>
      if Player.is_dealer p then Ok next_player
      else match fuel with
           | O => Ok next_player
           | S fuel' => scan fuel' ps (next_player + 1)
           end
  end.

(** [__get_next_active_player_id] *)
Definition __get_next_active_player_id (current_player : Z) : M Z :=
  let! n := gets (fun s => length (active_players s)) in
  let! next_player := lift (py_mod (current_player + 1) n) in
  let! max_loop := gets (fun s => length (players s)) in
  let! ps := gets players in
  lift (scan max_loop ps next_player).

(** [_set_dealer] (not called by the class itself) *)
Definition _set_dealer : M unit :=
  let! d := gets dealer_id in
  let! next_dealer := __get_next_active_player_id (d + 1) in
  update_player next_dealer (Player.set_is_dealer true) ;;
  modify (set_dealer_id next_dealer).

(** [_set_small_blind] *)
Definition _set_small_blind : M unit :=
  let! d := gets dealer_id in
  let! next_small_blind := __get_next_active_player_id (d + 1) in
  update_player next_small_blind (Player.set_is_small_blind true).

(** [_set_big_blind] *)
Definition _set_big_blind : M unit :=
  let! d := gets dealer_id in
  let! next_big_blind := __get_next_active_player_id (d + 1) in
  update_player next_big_blind (Player.set_is_big_blind true).

(** [action in self.action_space] for [spaces.Discrete(3)]: the integers
    0, 1 and 2. *)
Definition in_action_space (action : Z) : bool :=
  bool_decide (0 <= action < 3).

(** [_check_action] *)
Definition _check_action (action : Z) : M unit :=
  if in_action_space action then ret tt else raise ValueError.

(** [self.deck.draw_random(n)] *)
Definition draw (n : nat) : M (list Deck.card) :=
  fun s =>
    let '(r, d') := Deck.draw_random n (deck s) in
    (r, set_deck d' s).

(** [step]: the value returned is the tuple
    [(self.__table, 0, False, {})]; its last component, the empty dict,
    is [tt].  [draw_random()] without an argument draws one card (the
    spec's turn and river slots hold one card each). *)
Definition step (action : Z) : M (Table * Z * bool * unit) :=
  let! gs := gets game_state in
  match gs with
  | InPhase PREFLOP =>
      let! cs := draw 3 in
      modify (fun s => set_table
        {| slot_flop := Some cs; slot_turn := slot_turn (table s);
           slot_river := slot_river (table s) |} s) ;;
      modify (set_game_state (InPhase FLOP))
  | InPhase FLOP =>
      let! cs := draw 1 in
      modify (fun s => set_table
        {| slot_flop := slot_flop (table s); slot_turn := Some cs;
           slot_river := slot_river (table s) |} s) ;;
      modify (set_game_state (InPhase TURN))
  | InPhase TURN =>
      let! cs := draw 1 in
      modify (fun s => set_table
        {| slot_flop := slot_flop (table s); slot_turn := slot_turn (table s);
           slot_river := Some cs |} s) ;;
      modify (set_game_state (InPhase SHOWDOWN))
  | _ => ret tt
  end ;;
  let! tbl := gets table in
  ret (tbl, 0, false, tt).

(** The loop [for player in self.players: player.cards =
    self.deck.draw_random(2)] over the seats [ps] still to be served,
    the seats before them having been served already. *)
Fixpoint deal_loop (ps : list Player.t) (d : Deck.t)
  : result unit * list Player.t * Deck.t :=
  match ps with
  | [] => (Ok tt, [], d)
  | player :: ps' =>
      match Deck.draw_random 2 d with
      | (Ok cs, d') =>
          let '(r, ps'', d'') := deal_loop ps' d' in
          (r, Player.set_cards cs player :: ps'', d'')
      | (Raise e, d') => (Raise e, player :: ps', d')
      end
  end.

(** [_deal_new_cards] *)
Definition _deal_new_cards : M unit :=
  _set_small_blind ;;
  _set_big_blind ;;
  fun s =>
    let '(r, ps, d) := deal_loop (players s) (deck s) in
    (r, set_deck d (set_players ps s)).

(** [self.stake += x] *)
Definition add_stake (x : Z) : M unit :=
  let! st := gets stake in
  match st with
  | Some v => modify (set_stake (Some (v + x)))
  | None => raise TypeError
  end.

(** One of the two blind-posting statements of [reset] (lines 200-206
    and 208-214), which differ only in the seat subscript [seat] and in
    the blind amount compared against. *)
Definition post_blind (seat : Z) (blind : Z) : M unit :=
  let! p := player_at seat in
  if decide (Player.stack p < blind) then
    let! p1 := player_at seat in
    add_stake (Player.stack p1) ;;
    update_player seat (Player.set_is_all_in true) ;;
    update_player seat (Player.set_stack 0)
  else
    add_stake blind.

(** [reset]; [fresh] is the order of the deck produced by
    [self.deck.reset()]. *)
Definition reset (fresh : Deck.t) : M Table :=
  modify (set_table empty_table) ;;
  modify (set_game_state (InPhase PREFLOP)) ;;
  modify (fun s => set_players_active (active_from 0 (players s)) s) ;;
  (* Player reset *)
  modify (fun s => set_players (map (Player.set_cards []) (players s)) s) ;;
  (* New dealer *)
  let! d := gets dealer_id in
  let! n := gets (fun s => length (players s)) in
  let! d' := lift (py_mod (d + 1) n) in
  modify (set_dealer_id d') ;;
  _deal_new_cards ;;
  modify (fun s => set_deck (Deck.reset fresh (deck s)) s) ;;
  (* Set the stake *)
  modify (set_stake (Some 0)) ;;
  let! d1 := gets dealer_id in
  let! sb := gets small_blind in
  post_blind (d1 + 1) sb ;;
  let! d2 := gets dealer_id in
  let! bb := gets big_blind in
  post_blind (d2 + 2) bb ;;
  (* Set the active players *)
  modify (fun s => set_players (map (Player.set_is_active true) (players s)) s) ;;
  gets table.

(** [random.choice(seq)]: [pick] selects the outcome. *)
Definition random_choice {A} (pick : nat) (l : list A) : result A :=
  match l with
  | [] => Raise IndexError
  | _ :: _ =>
      match l !! (pick `mod` length l)%nat with
      | Some x => Ok x
      | None => Raise IndexError
      end
  end.

(** [__init__]: [pick] is the outcome of [random.choice], [deck0] the
    order of the new [Deck()], [fresh] the order after [deck.reset()].
    When the constructor raises no object exists. *)
Definition init (number_of_players : Z) (initial_stack0 small_blind0 : Z)
    (max_steps0 : Z) (pick : nat) (deck0 fresh : Deck.t) : result t :=
  let ps := map (fun player_id => Player.init player_id initial_stack0)
                (seqZ 0 number_of_players) in
  let active := active_from 0 ps in
  match random_choice pick active with
  | Raise e => Raise e
  | Ok d =>
      let s0 :=
        {| initial_stack := initial_stack0; players := ps;
           small_blind := small_blind0; big_blind := small_blind0 * 2;
           active_players := active; table := empty_table;
           game_state := InMachine START_GAME; stake := None;
           max_steps := max_steps0; deck := deck0;
           dealer_id := d; players_active := [] |} in
      let body : M Table :=
        update_player d (Player.set_is_dealer true) ;;
        modify (fun s => set_players_active (active_from 0 (players s)) s) ;;
        _set_small_blind ;;
        reset fresh in
      match body s0 with
      | (Ok _, s) => Ok s
      | (Raise e, _) => Raise e
      end
  end.

(** [random_state] *)
Definition random_state : M unit :=
  let! cs := draw 3 in
  modify (fun s => set_table
    {| slot_flop := Some cs; slot_turn := slot_turn (table s);
       slot_river := slot_river (table s) |} s) ;;
  let! cs := draw 1 in
  modify (fun s => set_table
    {| slot_flop := slot_flop (table s); slot_turn := Some cs;
       slot_river := slot_river (table s) |} s) ;;
  let! cs := draw 1 in
  modify (fun s => set_table
    {| slot_flop := slot_flop (table s); slot_turn := slot_turn (table s);
       slot_river := Some cs |} s).

(** [render]: the body is [pass]. *)
Definition render : M unit := ret tt.

End TexasHoldemEnv.

(** * Closed forms used in the statements *)

Import TexasHoldemEnv.

(** The seats after the dealing loop has served all of them from the
    deck [d]: seat [k] holds the cards at positions [2k] and [2k+1]. *)
Fixpoint deal_cards (ps : list Player.t) (d : Deck.t) : list Player.t :=
  match ps with
  | [] => []
  | p :: ps' => Player.set_cards (take 2 d) p :: deal_cards ps' (drop 2 d)
  end.

(** The amount a seat posts for a blind, and the seat afterwards. *)
Definition blind_due (blind : Z) (p : Player.t) : Z :=
  if decide (Player.stack p < blind) then Player.stack p else blind.

Definition go_all_in (blind : Z) (p : Player.t) : Player.t :=
  if decide (Player.stack p < blind)
  then Player.set_stack 0 (Player.set_is_all_in true p)
  else p.

(** The seats at the end of a [reset] that rotated the dealer index to
    [d'] and whose scans stopped at seat [k]. *)
Definition seated (s : t) (d' k : Z) : list Player.t :=
  Player.set_is_active true <$>
    alter (go_all_in (big_blind s)) (Z.to_nat (d' + 2))
      (alter (go_all_in (small_blind s)) (Z.to_nat (d' + 1))
        (deal_cards
          (alter (Player.set_is_big_blind true) (Z.to_nat k)
            (alter (Player.set_is_small_blind true) (Z.to_nat k)
              (Player.set_cards [] <$> players s)))
          (deck s))).

(** The object after the first statements of [reset], up to the
    rotation of the dealer index to [d']. *)
Definition rotated (s : t) (d' : Z) : t :=
  set_dealer_id d'
    (set_players (Player.set_cards [] <$> players s)
       (set_players_active (active_from 0 (players s))
          (set_game_state (InPhase PREFLOP) (set_table empty_table s)))).

(** The object after one blind has been posted by the seat [seat], which
    holds [p]. *)
Definition posted (seat : Z) (blind : Z) (p : Player.t) (v : Z) (s : t) : t :=
  set_players (alter (go_all_in blind) (Z.to_nat seat) (players s))
    (set_stake (Some (v + blind_due blind p)) s).

(** Whether the seat at position [i], holding [p] before [reset], posts
    a blind that its stack does not cover. *)
Definition capped (s : t) (d' : Z) (i : nat) (p : Player.t) : bool :=
  bool_decide (Z.of_nat i = d' + 1 /\ Player.stack p < small_blind s)
  || bool_decide (Z.of_nat i = d' + 2 /\ Player.stack p < big_blind s).

(** The seat at position [i] of [seated s d' k], field by field, from the
    seat [p] at that position before [reset]. *)
Definition seat_after (s : t) (d' k : Z) (i : nat) (p : Player.t) : Player.t :=
  {| Player.id := Player.id p;
     Player.stack := if capped s d' i p then 0 else Player.stack p;
     Player.cards := take 2 (drop (2 * i) (deck s));
     Player.is_active := true;
     Player.is_all_in := capped s d' i p || Player.is_all_in p;
     Player.is_dealer := Player.is_dealer p;
     Player.is_small_blind :=
       bool_decide (Z.of_nat i = k) || Player.is_small_blind p;
     Player.is_big_blind :=
       bool_decide (Z.of_nat i = k) || Player.is_big_blind p |}.

(** The object left by a [reset] that returns. *)
Definition reset_state (fresh : Deck.t) (s : t) (d' k : Z) (posted_total : Z) : t :=
  {| initial_stack := initial_stack s;
     players := seated s d' k;
     small_blind := small_blind s;
     big_blind := big_blind s;
     active_players := active_players s;
     table := empty_table;
     game_state := InPhase PREFLOP;
     stake := Some posted_total;
     max_steps := max_steps s;
     deck := fresh;
     dealer_id := d';
     players_active := active_from 0 (players s) |}.

(** The object after [step] has drawn [n] cards into a slot and moved
    to the phase [ph]. *)
Definition advanced (n : nat) (fill : list Deck.card -> Table -> Table)
    (ph : Phase) (s : t) : t :=
  set_game_state (InPhase ph)
    (set_table (fill (take n (deck s)) (table s))
       (set_deck (drop n (deck s)) s)).

Definition fill_flop (cs : list Deck.card) (tb : Table) : Table :=
  {| slot_flop := Some cs; slot_turn := slot_turn tb; slot_river := slot_river tb |}.

Definition fill_turn (cs : list Deck.card) (tb : Table) : Table :=
  {| slot_flop := slot_flop tb; slot_turn := Some cs; slot_river := slot_river tb |}.

Definition fill_river (cs : list Deck.card) (tb : Table) : Table :=
  {| slot_flop := slot_flop tb; slot_turn := slot_turn tb; slot_river := Some cs |}.

(** The community cards on the table and the hole cards in the seats. *)
Definition slot_cards (slot : option (list Deck.card)) : list Deck.card :=
  match slot with Some cs => cs | None => [] end.

Definition community (tb : Table) : list Deck.card :=
  slot_cards (slot_flop tb) ++ slot_cards (slot_turn tb)
    ++ slot_cards (slot_river tb).

Definition hole_cards (s : t) : list Deck.card :=
  concat (Player.cards <$> players s).

(** The community cards of a hand as the spec's section 8 wants them:
    five cards, pairwise distinct and distinct from every hole card. *)
Definition community_claim (s : t) : Prop :=
  length (community (table s)) = 5%nat /\
  NoDup (community (table s)) /\
  forall c, c ∈ community (table s) -> c ∉ hole_cards s.

(** The blind posting of a hand as the spec's section 8 wants it, the
    small-blind and big-blind roles being held by the seats at positions
    [sb_seat] and [bb_seat]: [s] is the object before [reset], [s'] after. *)
Definition blinds_claim (s s' : t) (sb_seat bb_seat : nat) : Prop :=
  exists p_sb p_bb,
    players s !! sb_seat = Some p_sb /\
    players s !! bb_seat = Some p_bb /\
    stake s' = Some (Z.min (Player.stack p_sb) (small_blind s)
                     + Z.min (Player.stack p_bb) (big_blind s)) /\
    forall i p p',
      players s !! i = Some p -> players s' !! i = Some p' ->
      (Player.is_all_in p' = true <->
         (i = sb_seat /\ Player.stack p < small_blind s) \/
         (i = bb_seat /\ Player.stack p < big_blind s)).

(** The per-seat reset as the spec's section 4.1 wants it. *)
Definition reset_for_new_hand_claim (p : Player.t) : Prop :=
  let p' := Player.reset p in
  Player.cards p' = [] /\
  Player.is_all_in p' = false /\ Player.is_dealer p' = false /\
  Player.is_small_blind p' = false /\ Player.is_big_blind p' = false /\
  Player.stack p' = Player.stack p /\
  Player.is_active p' = Player.is_active p.

(** The role flags of the seats, in seat order:
    [(is_dealer, is_small_blind, is_big_blind)]. *)
Definition roles (s : t) : list (bool * bool * bool) :=
  (fun p => (Player.is_dealer p, Player.is_small_blind p, Player.is_big_blind p))
    <$> players s.

(** Consecutive calls of [reset] on one object, one fresh deck order per
    call: the outcomes of the calls, in order, and the object at the end.
    A call that raises leaves the object as it was at the [raise]. *)
Fixpoint resets (freshes : list Deck.t) (s : t) : list (result Table) * t :=
  match freshes with
  | [] => ([], s)
  | fresh :: freshes' =>
      let '(r, s1) := reset fresh s in
      let '(rs, s2) := resets freshes' s1 in
      (r :: rs, s2)
  end.

(** Consecutive calls of [step] on one object, one action per call: the
    outcomes of the calls, in order, and the object at the end. *)
Fixpoint steps (actions : list Z) (s : t)
  : list (result (Table * Z * bool * unit)) * t :=
  match actions with
  | [] => ([], s)
  | action :: actions' =>
      let '(r, s1) := step action s in
      let '(rs, s2) := steps actions' s1 in
      (r :: rs, s2)
  end.

(** * Tables used as concrete inputs *)

Definition blank : t :=
  {| initial_stack := 0; players := []; small_blind := 0; big_blind := 0;
     active_players := []; table := empty_table;
     game_state := InMachine START_GAME; stake := None; max_steps := 0;
     deck := []; dealer_id := 0; players_active := [] |}.

Definition built (r : result t) : t :=
  match r with Ok s => s | Raise _ => blank end.

(** [TexasHoldemEnv(5, 1000, 10)] with the button drawn on the last seat
    and the cards in the order of [Deck.full]. *)
Definition table5 : t :=
  Eval vm_compute in built (init 5 1000 10 1000 4 Deck.full Deck.full).

(** [table5] after one more [reset]. *)
Definition hand5 : t := Eval vm_compute in snd (reset Deck.full table5).

(** [hand5] after one more [reset]: the dealer index is on seat 2. *)
Definition third5 : t := Eval vm_compute in snd (reset Deck.full hand5).

(** [table5] after the three advances of its first hand. *)
Definition showdown5 : t :=
  Eval vm_compute in snd (step 1 (snd (step 1 (snd (step 1 table5))))).

(** [TexasHoldemEnv(4, 5, 10)]: stacks of 5 against blinds of 10 and 20. *)
Definition short4 : t :=
  Eval vm_compute in built (init 4 5 10 1000 3 Deck.full Deck.full).

(** [short4] after one more [reset]. *)
Definition short4_next : t := Eval vm_compute in snd (reset Deck.full short4).

(** [TexasHoldemEnv(3, 1000, 10)] *)
Definition table3 : t :=
  Eval vm_compute in built (init 3 1000 10 1000 2 Deck.full Deck.full).

(** * Properties *)

(** ** Subscripting *)

Section Subscript.
Context {A : Type}.
Implicit Types (l : list A) (i : Z).

Lemma py_pos_nonneg n i k :
  0 <= i -> py_pos n i = Some k -> i < Z.of_nat n /\ k = Z.to_nat i.
Proof.
  unfold py_pos; intros Hi.
  destruct (decide (0 <= i < Z.of_nat n)) as [Hin|Hout].
  - intros [= <-]. split; [lia|done].
  - destruct (decide (- Z.of_nat n <= i < 0)); [lia|discriminate].
Qed.

Lemma py_pos_in_range n i :
  0 <= i < Z.of_nat n -> py_pos n i = Some (Z.to_nat i).
Proof. intros Hi; unfold py_pos; by rewrite decide_True. Qed.

Lemma py_pos_beyond n i : Z.of_nat n <= i -> py_pos n i = None.
Proof.
  intros Hi; unfold py_pos.
  rewrite decide_False by lia. by rewrite decide_False by lia.
Qed.

Lemma py_pos_lt n i k : py_pos n i = Some k -> (k < n)%nat.
Proof.
  unfold py_pos; intros H.
  repeat case_decide; simplify_eq; lia.
Qed.

Lemma py_get_raises l i e : py_get l i = Raise e -> e = IndexError.
Proof. unfold py_get; intros H; repeat case_match; congruence. Qed.

Lemma py_get_nonneg l i x :
  0 <= i -> py_get l i = Ok x ->
  i < Z.of_nat (length l) /\ l !! Z.to_nat i = Some x.
Proof.
  unfold py_get; intros Hi H.
  destruct (py_pos (length l) i) as [k|] eqn:Hk; [|discriminate].
  apply py_pos_nonneg in Hk as [? ->]; [|done].
  destruct (l !! Z.to_nat i); naive_solver.
Qed.

Lemma py_get_in_range l i x :
  0 <= i -> l !! Z.to_nat i = Some x -> py_get l i = Ok x.
Proof.
  intros Hi Hx. unfold py_get.
  rewrite py_pos_in_range, Hx; [done|].
  apply lookup_lt_Some in Hx; lia.
Qed.

Lemma py_get_beyond l i : Z.of_nat (length l) <= i -> py_get l i = Raise IndexError.
Proof. intros Hi; unfold py_get. by rewrite py_pos_beyond. Qed.

Lemma py_get_fmap {B} (f : A -> B) l i :
  py_get (f <$> l) i =
  match py_get l i with Ok x => Ok (f x) | Raise e => Raise e end.
Proof.
  unfold py_get. rewrite length_fmap.
  destruct (py_pos (length l) i) as [k|]; [|done].
  rewrite list_lookup_fmap. by destruct (l !! k).
Qed.

Lemma py_alter_raises f l i e : py_alter f l i = Raise e -> e = IndexError.
Proof. unfold py_alter; intros H; case_match; congruence. Qed.

Lemma py_alter_nonneg f l i l' :
  0 <= i -> py_alter f l i = Ok l' ->
  i < Z.of_nat (length l) /\ l' = alter f (Z.to_nat i) l.
Proof.
  unfold py_alter; intros Hi H.
  destruct (py_pos (length l) i) as [k|] eqn:Hk; [|discriminate].
  apply py_pos_nonneg in Hk as [? ->]; naive_solver.
Qed.

Lemma py_alter_in_range f l i :
  0 <= i < Z.of_nat (length l) ->
  py_alter f l i = Ok (alter f (Z.to_nat i) l).
Proof. intros Hi; unfold py_alter. by rewrite py_pos_in_range. Qed.

Lemma py_alter_length f l i l' : py_alter f l i = Ok l' -> length l' = length l.
Proof.
  unfold py_alter; intros H; case_match; simplify_eq.
  apply length_alter.
Qed.

End Subscript.

Lemma py_mod_Ok a n r :
  py_mod a n = Ok r -> (0 < n)%nat /\ r = a mod Z.of_nat n /\ 0 <= r < Z.of_nat n.
Proof.
  destruct n as [|n]; [discriminate|]; cbn -[Z.modulo Z.of_nat].
  intros [= <-]. split; [lia|]. split; [done|].
  apply Z.mod_pos_bound; lia.
Qed.

Lemma py_mod_pos a n :
  (0 < n)%nat -> py_mod a n = Ok (a mod Z.of_nat n).
Proof. destruct n; [lia|done]. Qed.

(** ** The bounded scan for the dealer flag *)

(** The scan reads nothing but the [is_dealer] flags. *)
Lemma scan_flags fuel ps ps' i :
  Player.is_dealer <$> ps = Player.is_dealer <$> ps' ->
  scan fuel ps i = scan fuel ps' i.
Proof.
  intros Hfl. revert i; induction fuel as [|fuel IH]; intros i; cbn;
    pose proof (py_get_fmap Player.is_dealer ps i) as H1;
    pose proof (py_get_fmap Player.is_dealer ps' i) as H2;
    rewrite Hfl in H1; rewrite H1 in H2;
    destruct (py_get ps i), (py_get ps' i); simplify_eq; try done;
    rewrite H2; [done|by rewrite IH].
Qed.

(** Started at a non-negative seat with enough iterations to run off the
    end of the list, a scan that returns has stopped on the first seat at
    or after its start whose [is_dealer] flag is set. *)
Lemma scan_Ok ps fuel i k :
  0 <= i -> Z.of_nat (length ps) <= i + Z.of_nat fuel ->
  scan fuel ps i = Ok k ->
  i <= k < Z.of_nat (length ps) /\
  (exists p, ps !! Z.to_nat k = Some p /\ Player.is_dealer p = true) /\
  (forall j q, i <= j < k -> ps !! Z.to_nat j = Some q ->
               Player.is_dealer q = false).
Proof.
  revert i; induction fuel as [|fuel IH]; intros i Hi Hlen; cbn;
    destruct (py_get ps i) as [p|e] eqn:Hp; try discriminate;
    apply py_get_nonneg in Hp as [Hlt Hp]; try done;
    destruct (Player.is_dealer p) eqn:Hd.
  - intros [= <-]. split; [lia|]. split; [eauto|]. intros; lia.
  - lia.
  - intros [= <-]. split; [lia|]. split; [eauto|]. intros; lia.
  - intros Hk. apply IH in Hk as (Hr & Hex & Hbefore); [|lia..].
    split; [lia|]. split; [done|].
    intros j q Hj Hq. destruct (decide (j = i)) as [->|Hne].
    + congruence.
    + apply (Hbefore j q); [lia|done].
Qed.

(** The scan can only fail by subscripting past the end of the list. *)
Lemma scan_raises fuel ps i e : scan fuel ps i = Raise e -> e = IndexError.
Proof.
  revert i; induction fuel as [|fuel IH]; intros i; cbn;
    destruct (py_get ps i) as [p|e'] eqn:Hp.
  - by destruct (Player.is_dealer p).
  - intros [= <-]. by eapply py_get_raises.
  - destruct (Player.is_dealer p); [done|]. apply IH.
  - intros [= <-]. by eapply py_get_raises.
Qed.

(** ** Running a computation *)

Section Monad.
Context {A B : Type}.
Implicit Types (m : M A) (k : A -> M B).

Lemma bind_Ok_eq m k s a s1 : m s = (Ok a, s1) -> bind m k s = k a s1.
Proof. unfold bind; by intros ->. Qed.

Lemma bind_Raise_eq m k s e s1 :
  m s = (Raise e, s1) -> bind m k s = (Raise e, s1).
Proof. unfold bind; by intros ->. Qed.

Lemma bind_Ok_inv m k s b s' :
  bind m k s = (Ok b, s') ->
  exists a s1, m s = (Ok a, s1) /\ k a s1 = (Ok b, s').
Proof.
  unfold bind. destruct (m s) as [[a|e] s1]; [eauto|discriminate].
Qed.

Lemma bind_Raise_inv m k s e s' :
  bind m k s = (Raise e, s') ->
  m s = (Raise e, s') \/ exists a s1, m s = (Ok a, s1) /\ k a s1 = (Raise e, s').
Proof.
  unfold bind. destruct (m s) as [[a|e1] s1]; [eauto|].
  intros [= <- <-]; by left.
Qed.

End Monad.

(** ** The equations of the small methods *)

Lemma player_at_eq i s : player_at i s = (py_get (players s) i, s).
Proof. done. Qed.

Lemma update_player_eq i f s :
  update_player i f s =
  match py_alter f (players s) i with
  | Ok ps' => (Ok tt, set_players ps' s)
  | Raise e => (Raise e, s)
  end.
Proof.
  unfold update_player, bind, gets, lift, modify.
  by destruct (py_alter f (players s) i).
Qed.

Lemma get_next_eq c s :
  __get_next_active_player_id c s =
  (match py_mod (c + 1) (length (active_players s)) with
   | Ok start => scan (length (players s)) (players s) start
   | Raise e => Raise e
   end, s).
Proof.
  unfold __get_next_active_player_id, bind, gets, lift.
  by destruct (py_mod _ _).
Qed.

Lemma set_small_blind_eq s :
  _set_small_blind s =
  match fst (__get_next_active_player_id (dealer_id s + 1) s) with
  | Ok k => update_player k (Player.set_is_small_blind true) s
  | Raise e => (Raise e, s)
  end.
Proof.
  unfold _set_small_blind, bind at 1, gets at 1.
  unfold bind; rewrite get_next_eq; cbn.
  by destruct (py_mod _ _) as [start|]; [destruct (scan _ _ _)|].
Qed.

Lemma set_big_blind_eq s :
  _set_big_blind s =
  match fst (__get_next_active_player_id (dealer_id s + 1) s) with
  | Ok k => update_player k (Player.set_is_big_blind true) s
  | Raise e => (Raise e, s)
  end.
Proof.
  unfold _set_big_blind, bind at 1, gets at 1.
  unfold bind; rewrite get_next_eq; cbn.
  by destruct (py_mod _ _) as [start|]; [destruct (scan _ _ _)|].
Qed.

(** ** The dealing loop *)

Lemma deal_cards_length ps d : length (deal_cards ps d) = length ps.
Proof. revert d; induction ps as [|p ps IH]; intros d; cbn; [done|]. by rewrite IH. Qed.

Lemma deal_cards_lookup ps d k :
  deal_cards ps d !! k =
  Player.set_cards (take 2 (drop (2 * k) d)) <$> ps !! k.
Proof.
  revert d k; induction ps as [|p ps IH]; intros d k; [done|].
  destruct k as [|k]; cbn [deal_cards].
  - done.
  - change ((?x :: ?l) !! S k) with (l !! k).
    rewrite IH, drop_drop.
    by replace (2 + 2 * k)%nat with (2 * S k)%nat by lia.
Qed.

Lemma deal_loop_enough ps d :
  (2 * length ps <= length d)%nat ->
  deal_loop ps d = (Ok tt, deal_cards ps d, drop (2 * length ps) d).
Proof.
  revert d; induction ps as [|p ps IH]; intros d Hlen; cbn [deal_loop deal_cards].
  - done.
  - cbn [length] in Hlen. unfold Deck.draw_random.
    rewrite decide_True by lia.
    rewrite IH by (rewrite length_drop; lia).
    rewrite drop_drop. do 3 f_equal. cbn [length]; lia.
Qed.

Lemma deal_loop_short ps d :
  (length d < 2 * length ps)%nat ->
  fst (fst (deal_loop ps d)) = Raise DeckExhausted.
Proof.
  revert d; induction ps as [|p ps IH]; intros d Hlen; cbn [deal_loop].
  - cbn in Hlen; lia.
  - cbn [length] in Hlen. unfold Deck.draw_random.
    destruct (decide (2 <= length d)%nat) as [Hd|Hd]; [|done].
    specialize (IH (drop 2 d)). rewrite length_drop in IH.
    destruct (deal_loop ps (drop 2 d)) as [[r ps''] d'']. cbn in *.
    apply IH; lia.
Qed.

Lemma deal_loop_length ps d :
  length (snd (fst (deal_loop ps d))) = length ps.
Proof.
  revert d; induction ps as [|p ps IH]; intros d; cbn [deal_loop]; [done|].
  unfold Deck.draw_random. destruct (decide (2 <= length d)%nat); [|done].
  specialize (IH (drop 2 d)).
  destruct (deal_loop ps (drop 2 d)) as [[r ps''] d'']; cbn in *. by rewrite IH.
Qed.

(** ** Assigning the blind flags and dealing *)

Lemma get_next_start c s k :
  fst (__get_next_active_player_id c s) = Ok k ->
  0 <= k < Z.of_nat (length (players s)) /\
  (exists p, players s !! Z.to_nat k = Some p /\ Player.is_dealer p = true).
Proof.
  rewrite get_next_eq; cbn.
  destruct (py_mod _ _) as [start|] eqn:Hm; [|discriminate].
  apply py_mod_Ok in Hm as (_ & _ & Hstart).
  intros Hk. apply scan_Ok in Hk as (? & ? & _); [|lia..].
  split; [lia|done].
Qed.

Lemma get_next_flags c s s' :
  active_players s' = active_players s ->
  Player.is_dealer <$> players s' = Player.is_dealer <$> players s ->
  fst (__get_next_active_player_id c s') = fst (__get_next_active_player_id c s).
Proof.
  intros Ha Hfl. rewrite !get_next_eq; cbn. rewrite Ha.
  destruct (py_mod _ _); [|done].
  replace (length (players s')) with (length (players s)).
  - by apply scan_flags.
  - by rewrite <-(length_fmap Player.is_dealer (players s)), <-Hfl, length_fmap.
Qed.

Lemma get_next_raises c s e :
  fst (__get_next_active_player_id c s) = Raise e ->
  e = IndexError \/ (e = ZeroDivisionError /\ active_players s = []).
Proof.
  rewrite get_next_eq; cbn.
  destruct (active_players s) as [|a l]; cbn.
  - intros [= <-]; by right.
  - intros He; left. by eapply scan_raises.
Qed.

Lemma alter_flag_dealer (f : Player.t -> Player.t) (k : nat) (ps : list Player.t) :
  (forall p, Player.is_dealer (f p) = Player.is_dealer p) ->
  Player.is_dealer <$> alter f k ps = Player.is_dealer <$> ps.
Proof.
  intros Hf. apply list_eq; intros i.
  rewrite !list_lookup_fmap.
  destruct (decide (i = k)) as [->|Hne].
  - rewrite list_lookup_alter_eq. destruct (ps !! k); cbn; [by rewrite Hf|done].
  - by rewrite list_lookup_alter_ne.
Qed.

Lemma deal_new_cards_eq s :
  _deal_new_cards s =
  match fst (__get_next_active_player_id (dealer_id s + 1) s) with
  | Raise e => (Raise e, s)
  | Ok k =>
      let '(r, ps, d) :=
        deal_loop
          (alter (Player.set_is_big_blind true) (Z.to_nat k)
             (alter (Player.set_is_small_blind true) (Z.to_nat k) (players s)))
          (deck s) in
      (r, set_deck d (set_players ps s))
  end.
Proof.
  unfold _deal_new_cards, bind at 1. rewrite set_small_blind_eq.
  destruct (fst (__get_next_active_player_id (dealer_id s + 1) s))
    as [k|e] eqn:Hk; [|done].
  pose proof (get_next_start _ _ _ Hk) as [Hrange _].
  rewrite update_player_eq, py_alter_in_range by done.
  unfold bind at 1. rewrite set_big_blind_eq.
  cbn [dealer_id set_players].
  erewrite get_next_flags; [rewrite Hk| done |]; cycle 1.
  { cbn. by apply alter_flag_dealer. }
  rewrite update_player_eq. cbn [players set_players].
  rewrite py_alter_in_range by (rewrite length_alter; done).
  by destruct (deal_loop _ _) as [[r ps] d].
Qed.

(** ** Posting a blind *)

Lemma set_players_same s : set_players (players s) s = s.
Proof. by destruct s. Qed.

Lemma post_blind_eq seat blind s v :
  0 <= seat -> stake s = Some v ->
  post_blind seat blind s =
  match py_get (players s) seat with
  | Raise e => (Raise e, s)
  | Ok p => (Ok tt, posted seat blind p v s)
  end.
Proof.
  intros Hseat Hv. unfold post_blind, bind at 1. rewrite player_at_eq.
  destruct (py_get (players s) seat) as [p|e] eqn:Hp; [|done].
  destruct (py_get_nonneg _ _ _ Hseat Hp) as [Hlt Hlook].
  unfold posted, blind_due.
  destruct (decide (Player.stack p < blind)) as [Hcap|Hfull].
  - unfold bind at 1. rewrite player_at_eq, Hp.
    unfold bind at 1, add_stake, bind at 1, gets; rewrite Hv.
    unfold modify at 1. unfold bind at 1.
    rewrite update_player_eq. cbn [players set_stake].
    rewrite py_alter_in_range by lia.
    rewrite update_player_eq. cbn [players set_players].
    rewrite py_alter_in_range by (rewrite length_alter; lia).
    rewrite list_alter_alter_eq.
    rewrite (list_alter_ext _ (go_all_in blind) (players s) (players s)
               (Z.to_nat seat)); [done| |done].
    intros x Hx. assert (x = p) as -> by congruence.
    unfold go_all_in. by rewrite decide_True.
  - unfold add_stake, bind, gets; rewrite Hv. unfold modify. f_equal.
    rewrite (list_alter_ext _ id (players s) (players s)); [|..|done].
    + rewrite list_alter_id by done. by destruct s.
    + intros x Hx. assert (x = p) as -> by congruence.
      unfold go_all_in. by rewrite decide_False.
Qed.

(** ** [reset], statement by statement *)

Lemma reset_eq fresh s :
  reset fresh s =
  match py_mod (dealer_id s + 1) (length (players s)) with
  | Raise e => (Raise e, rotated s (dealer_id s))
  | Ok d' =>
    match fst (__get_next_active_player_id (d' + 1) s) with
    | Raise e => (Raise e, rotated s d')
    | Ok k =>
      let '(r, ps, d) :=
        deal_loop
          (alter (Player.set_is_big_blind true) (Z.to_nat k)
             (alter (Player.set_is_small_blind true) (Z.to_nat k)
                (Player.set_cards [] <$> players s)))
          (deck s) in
      let s2 := set_deck d (set_players ps (rotated s d')) in
      match r with
      | Raise e => (Raise e, s2)
      | Ok _ =>
        let s3 := set_stake (Some 0) (set_deck fresh s2) in
        match py_get ps (d' + 1) with
        | Raise e => (Raise e, s3)
        | Ok p1 =>
          let s4 := posted (d' + 1) (small_blind s) p1 0 s3 in
          match py_get (players s4) (d' + 2) with
          | Raise e => (Raise e, s4)
          | Ok p2 =>
            let s5 := posted (d' + 2) (big_blind s) p2
                        (0 + blind_due (small_blind s) p1) s4 in
            (Ok empty_table,
             set_players (Player.set_is_active true <$> players s5) s5)
          end
        end
      end
    end
  end.
Proof.
  unfold reset.
  unfold bind at 1, modify at 1. unfold bind at 1, modify at 1.
  unfold bind at 1, modify at 1. unfold bind at 1, modify at 1.
  unfold bind at 1, gets at 1. unfold bind at 1, gets at 1.
  unfold bind at 1, lift at 1. cbn [players dealer_id set_players
    set_players_active set_game_state set_table].
  rewrite length_fmap.
  destruct (py_mod (dealer_id s + 1) (length (players s))) as [d'|e] eqn:Hd.
  2:{ unfold rotated. by destruct s. }
  apply py_mod_Ok in Hd as (HN & _ & Hd).
  unfold bind at 1, modify at 1. fold (rotated s d').
  unfold bind at 1. rewrite deal_new_cards_eq.
  cbn [dealer_id rotated set_dealer_id].
  erewrite (get_next_flags _ s); cycle 1.
  { done. }
  { cbn. rewrite <-list_fmap_compose. by apply list_fmap_ext. }
  destruct (fst (__get_next_active_player_id (d' + 1) s)) as [k|e] eqn:Hk; [|done].
  cbn [players deck set_players set_dealer_id set_players_active
       set_game_state set_table].
  destruct (deal_loop _ (deck s)) as [[r ps] d] eqn:Hdeal.
  destruct r as [[]|e]; [|done].
  unfold bind at 1, modify at 1. unfold bind at 1, modify at 1.
  unfold bind at 1, gets at 1. unfold bind at 1, gets at 1.
  cbn [dealer_id small_blind set_stake set_deck set_players set_dealer_id
       set_players_active set_game_state set_table Deck.reset].
  unfold bind at 1.
  erewrite post_blind_eq; [|lia|done].
  cbn [players set_stake set_deck set_players].
  destruct (py_get ps (d' + 1)) as [p1|e] eqn:Hp1; [|done].
  unfold bind at 1, gets at 1. unfold bind at 1, gets at 1.
  unfold bind at 1.
  erewrite post_blind_eq; [|cbn; lia|done].
  cbn [dealer_id big_blind posted set_stake set_deck set_players set_dealer_id
       set_players_active set_game_state set_table players].
  destruct (py_get _ (d' + 2)) as [p2|e] eqn:Hp2; [|done].
  done.
Qed.

(** ** The seats after a [reset] that returns *)

Lemma seated_length s d' k : length (seated s d' k) = length (players s).
Proof.
  unfold seated.
  by rewrite length_fmap, !length_alter, deal_cards_length, !length_alter,
    length_fmap.
Qed.

Lemma lookup_alter_fmap {A} (f : A -> A) (l : list A) (j i : nat) :
  alter f j l !! i = (if decide (j = i) then f else id) <$> l !! i.
Proof.
  case_decide; subst; [apply list_lookup_alter_eq|].
  rewrite list_lookup_alter_ne by done. by destruct (l !! i).
Qed.

Lemma seated_lookup s d' k i :
  0 <= d' -> 0 <= k ->
  seated s d' k !! i = seat_after s d' k i <$> players s !! i.
Proof.
  intros Hd Hk. unfold seated.
  rewrite list_lookup_fmap, !lookup_alter_fmap, deal_cards_lookup,
    !lookup_alter_fmap, list_lookup_fmap.
  destruct (players s !! i) as [p|] eqn:Hp; [|done].
  cbn. f_equal.
  unfold seat_after, capped, go_all_in.
  destruct (decide (Z.to_nat (d' + 2) = i)) as [H2|H2],
           (decide (Z.to_nat (d' + 1) = i)) as [H1|H1]; [lia|..];
    destruct (decide (Z.to_nat k = i)) as [H3|H3]; cbn;
    repeat case_decide; first [reflexivity | exfalso; cbn in *; lia].
Qed.

Lemma dealt_lookup (ps : list Player.t) (d : Deck.t) (k i : nat) p' :
  deal_cards
    (alter (Player.set_is_big_blind true) k
       (alter (Player.set_is_small_blind true) k (Player.set_cards [] <$> ps)))
    d !! i = Some p' ->
  exists p, ps !! i = Some p /\ Player.stack p' = Player.stack p.
Proof.
  rewrite deal_cards_lookup, !lookup_alter_fmap, list_lookup_fmap.
  destruct (ps !! i) as [p|]; [|done].
  intros [= <-]. exists p; split; [done|]. by case_decide.
Qed.

Lemma blind_due_stack blind p p' :
  Player.stack p' = Player.stack p -> blind_due blind p' = blind_due blind p.
Proof. unfold blind_due; by intros ->. Qed.

(** What a [reset] that returns has done. *)
Lemma reset_Ok fresh s tbl s' :
  reset fresh s = (Ok tbl, s') ->
  let N := length (players s) in
  let d' := (dealer_id s + 1) mod Z.of_nat N in
  exists k p1 p2,
    (0 < N)%nat /\ 0 <= d' /\ d' + 2 < Z.of_nat N /\
    fst (__get_next_active_player_id (d' + 1) s) = Ok k /\ 0 <= k /\
    (2 * N <= length (deck s))%nat /\
    players s !! Z.to_nat (d' + 1) = Some p1 /\
    players s !! Z.to_nat (d' + 2) = Some p2 /\
    tbl = empty_table /\
    s' = reset_state fresh s d' k
           (blind_due (small_blind s) p1 + blind_due (big_blind s) p2).
Proof.
  intros H N d'. rewrite reset_eq in H.
  destruct (py_mod _ _) as [d1|] eqn:Hmod; [|discriminate].
  apply py_mod_Ok in Hmod as (HN & -> & Hd'). fold N d' in H, Hd' |- *.
  destruct (fst (__get_next_active_player_id (d' + 1) s)) as [k|] eqn:Hk;
    [|discriminate].
  pose proof (get_next_start _ _ _ Hk) as [Hkr _].
  destruct (decide (2 * N <= length (deck s))%nat) as [Hdeck|Hdeck]; cycle 1.
  { pose proof (deal_loop_short
      (alter (Player.set_is_big_blind true) (Z.to_nat k)
         (alter (Player.set_is_small_blind true) (Z.to_nat k)
            (Player.set_cards [] <$> players s))) (deck s)) as Hshort.
    rewrite !length_alter, length_fmap in Hshort.
    destruct (deal_loop _ _) as [[r ps] d]. cbn in Hshort.
    rewrite Hshort in H by (fold N; lia). discriminate. }
  rewrite deal_loop_enough in H by (rewrite !length_alter, length_fmap; done).
  cbv zeta in H.
  destruct (py_get _ (d' + 1)) as [p1'|] eqn:Hp1; [|discriminate].
  apply py_get_nonneg in Hp1 as [_ Hp1]; [|lia].
  apply dealt_lookup in Hp1 as (p1 & Hp1 & Hs1).
  cbv zeta in H.
  destruct (py_get _ (d' + 2)) as [p2'|] eqn:Hp2; [|discriminate].
  apply py_get_nonneg in Hp2 as [Hlt Hp2]; [|lia].
  cbn [players posted set_players set_stake set_deck] in Hp2, Hlt.
  rewrite list_lookup_alter_ne in Hp2 by lia.
  apply dealt_lookup in Hp2 as (p2 & Hp2 & Hs2).
  rewrite !length_alter, deal_cards_length, !length_alter, length_fmap in Hlt.
  exists k, p1, p2. do 8 (split; [done || lia|]).
  injection H as <- <-. split; [done|].
  unfold reset_state, seated, posted, rotated. cbn.
  rewrite (blind_due_stack _ _ _ Hs1), (blind_due_stack _ _ _ Hs2).
  by destruct (blind_due (small_blind s) p1).
Qed.

(** ** [step], phase by phase *)

Lemma step_preflop action s :
  game_state s = InPhase PREFLOP -> (3 <= length (deck s))%nat ->
  step action s =
  let s' := advanced 3 fill_flop FLOP s in (Ok (table s', 0, false, tt), s').
Proof.
  intros Hgs Hlen. unfold step, bind at 1, gets at 1. rewrite Hgs.
  unfold bind, draw, Deck.draw_random. by rewrite decide_True.
Qed.

Lemma step_flop action s :
  game_state s = InPhase FLOP -> (1 <= length (deck s))%nat ->
  step action s =
  let s' := advanced 1 fill_turn TURN s in (Ok (table s', 0, false, tt), s').
Proof.
  intros Hgs Hlen. unfold step, bind at 1, gets at 1. rewrite Hgs.
  unfold bind, draw, Deck.draw_random. by rewrite decide_True.
Qed.

Lemma step_turn action s :
  game_state s = InPhase TURN -> (1 <= length (deck s))%nat ->
  step action s =
  let s' := advanced 1 fill_river SHOWDOWN s in (Ok (table s', 0, false, tt), s').
Proof.
  intros Hgs Hlen. unfold step, bind at 1, gets at 1. rewrite Hgs.
  unfold bind, draw, Deck.draw_random. by rewrite decide_True.
Qed.

Lemma step_showdown action s :
  game_state s = InPhase SHOWDOWN ->
  step action s = (Ok (table s, 0, false, tt), s).
Proof. intros Hgs. unfold step, bind at 1, gets at 1. by rewrite Hgs. Qed.

(** The action is not read. *)
Lemma step_ignores_action action action' s : step action s = step action' s.
Proof. done. Qed.

(** The three advances of a hand, from the object left by [reset]. *)
Lemma hand_advances fresh s tbl s0 a1 a2 a3 :
  reset fresh s = (Ok tbl, s0) -> (5 <= length fresh)%nat ->
  let s1 := advanced 3 fill_flop FLOP s0 in
  let s2 := advanced 1 fill_turn TURN s1 in
  let s3 := advanced 1 fill_river SHOWDOWN s2 in
  step a1 s0 = (Ok (table s1, 0, false, tt), s1) /\
  step a2 s1 = (Ok (table s2, 0, false, tt), s2) /\
  step a3 s2 = (Ok (table s3, 0, false, tt), s3) /\
  table s1 = mkTable (Some (take 3 fresh)) None None /\
  table s2 = mkTable (Some (take 3 fresh)) (Some (take 1 (drop 3 fresh))) None /\
  table s3 = mkTable (Some (take 3 fresh)) (Some (take 1 (drop 3 fresh)))
               (Some (take 1 (drop 4 fresh))).
Proof.
  intros Hreset Hlen.
  apply reset_Ok in Hreset as (k & p1 & p2 & _ & _ & _ & _ & _ & _ & _ & _ & _ & ->).
  intros s1 s2 s3.
  split; [|split; [|split]].
  - apply step_preflop; [done|]. cbn; lia.
  - apply step_flop; [done|]. cbn. rewrite length_drop; lia.
  - apply step_turn; [done|]. cbn. rewrite !length_drop; lia.
  - cbn. by rewrite !drop_drop.
Qed.

(** ** Claims *)

(** C5. Starting from the object left by a [reset] that returns (with a
    fresh deck of at least five cards, as a shuffled full deck is), three
    calls of [step] return and move PREFLOP to FLOP with three cards in
    the flop slot, FLOP to TURN with one card in the turn slot, TURN to
    SHOWDOWN with one card in the river slot, the phase RIVER never being
    entered; at SHOWDOWN every further call of [step] returns the table
    and leaves the object unchanged. *)
Theorem advance_phase_sequence fresh s tbl s0 a1 a2 a3 :
  reset fresh s = (Ok tbl, s0) -> Deck.shuffled fresh ->
  game_state s0 = InPhase PREFLOP /\ table s0 = empty_table /\
  exists s1 s2 s3 flop turn river,
    length flop = 3%nat /\ length turn = 1%nat /\ length river = 1%nat /\
    step a1 s0 = (Ok (table s1, 0, false, tt), s1) /\
    game_state s1 = InPhase FLOP /\
    table s1 = mkTable (Some flop) None None /\
    step a2 s1 = (Ok (table s2, 0, false, tt), s2) /\
    game_state s2 = InPhase TURN /\
    table s2 = mkTable (Some flop) (Some turn) None /\
    step a3 s2 = (Ok (table s3, 0, false, tt), s3) /\
    game_state s3 = InPhase SHOWDOWN /\
    table s3 = mkTable (Some flop) (Some turn) (Some river) /\
    forall a, step a s3 = (Ok (table s3, 0, false, tt), s3).
Proof.
  intros Hreset Hfresh.
  assert (length fresh = 52%nat) as Hlen by exact (Permutation_length Hfresh).
  destruct (hand_advances fresh s tbl s0 a1 a2 a3 Hreset)
    as (H1 & H2 & H3 & Ht1 & Ht2 & Ht3); [lia|].
  apply reset_Ok in Hreset as (k & p1 & p2 & _ & _ & _ & _ & _ & _ & _ & _ & _ & Hs0).
  split; [by rewrite Hs0|]. split; [by rewrite Hs0|].
  eexists _, _, _, (take 3 fresh), (take 1 (drop 3 fresh)), (take 1 (drop 4 fresh)).
  rewrite !length_take, !length_drop.
  split; [lia|]. split; [lia|]. split; [lia|].
  split; [exact H1|]. split; [done|]. split; [exact Ht1|].
  split; [exact H2|]. split; [done|]. split; [exact Ht2|].
  split; [exact H3|]. split; [done|]. split; [exact Ht3|].
  intros a. by apply step_showdown.
Qed.

Lemma advance_phase_sequence_witness :
  reset Deck.full table5 = (Ok empty_table, hand5) /\
  exists s3, snd (step 1 (snd (step 1 (snd (step 1 hand5))))) = s3 /\
    game_state s3 = InPhase SHOWDOWN /\
    step 2 s3 = (Ok (table s3, 0, false, tt), s3).
Proof.
  split; [vm_compute; reflexivity|].
  destruct (advance_phase_sequence Deck.full table5 empty_table hand5 1 1 1)
    as (_ & _ & s1 & s2 & s3 & fl & tu & ri & _ & _ & _ & H1 & _ & _ & H2 & _ & _
        & H3 & Hgs & _ & Hnoop).
  - vm_compute; reflexivity.
  - exact (Permutation_refl Deck.full).
  - exists s3. rewrite H1; cbn [snd]. rewrite H2; cbn [snd]. rewrite H3; cbn [snd].
    split; [reflexivity|]. split; [exact Hgs|]. apply Hnoop.
Defined.

Lemma shuffled_NoDup fresh : Deck.shuffled fresh -> NoDup fresh.
Proof. unfold Deck.shuffled. intros H. rewrite H. apply NoDup_seq. Qed.

(** C6, as stated, fails: in the first hand of [table5] the card [0] lies
    in the flop and in the hole cards of seat 0, the hole cards having
    been drawn before the deck was reset. *)
Lemma community_claim_counterexample :
  init 5 1000 10 1000 4 Deck.full Deck.full = Ok table5 /\
  snd (step 1 (snd (step 1 (snd (step 1 table5))))) = showdown5 /\
  game_state showdown5 = InPhase SHOWDOWN /\
  ~ community_claim showdown5.
Proof.
  split; [vm_compute; reflexivity|]. split; [vm_compute; reflexivity|].
  split; [reflexivity|].
  intros (_ & _ & Hdisj). apply (Hdisj 0%nat).
  - apply list_elem_of_In. vm_compute. tauto.
  - apply list_elem_of_In. vm_compute. tauto.
Qed.

(** C6, amended. Within one hand (a [reset] that returns, followed by
    three calls of [step]) each community slot is written once, by its own
    call, and kept by the later calls; five community cards are dealt in
    all, pairwise distinct and all taken from the freshly reset deck.
    (Nothing is said of the hole cards, which come from the previous deck
    state.) *)
Theorem community_cards_distinct fresh s tbl s0 a1 a2 a3 :
  reset fresh s = (Ok tbl, s0) -> Deck.shuffled fresh ->
  exists s1 s2 s3 flop turn river,
    step a1 s0 = (Ok (table s1, 0, false, tt), s1) /\
    step a2 s1 = (Ok (table s2, 0, false, tt), s2) /\
    step a3 s2 = (Ok (table s3, 0, false, tt), s3) /\
    table s0 = mkTable None None None /\
    table s1 = mkTable (Some flop) None None /\
    table s2 = mkTable (Some flop) (Some turn) None /\
    table s3 = mkTable (Some flop) (Some turn) (Some river) /\
    community (table s3) = flop ++ turn ++ river /\
    length (community (table s3)) = 5%nat /\
    NoDup (community (table s3)) /\
    forall c, c ∈ community (table s3) -> c ∈ fresh.
Proof.
  intros Hreset Hfresh.
  assert (length fresh = 52%nat) as Hlen by exact (Permutation_length Hfresh).
  destruct (hand_advances fresh s tbl s0 a1 a2 a3 Hreset)
    as (H1 & H2 & H3 & Ht1 & Ht2 & Ht3); [lia|].
  apply reset_Ok in Hreset as (k & p1 & p2 & _ & _ & _ & _ & _ & _ & _ & _ & _ & Hs0).
  eexists _, _, _, _, _, _.
  split; [exact H1|]. split; [exact H2|]. split; [exact H3|].
  split; [by rewrite Hs0|].
  split; [exact Ht1|]. split; [exact Ht2|]. split; [exact Ht3|].
  rewrite Ht3. unfold community; cbn [slot_flop slot_turn slot_river slot_cards].
  split; [done|].
  assert (take 3 fresh ++ take 1 (drop 3 fresh) ++ take 1 (drop 4 fresh)
          = take 5 fresh) as ->.
  { rewrite app_assoc, (take_take_drop fresh 3 1).
    apply (take_take_drop fresh 4 1). }
  split; [rewrite length_take; lia|].
  split.
  - apply (sublist_NoDup _ fresh); [by apply shuffled_NoDup|apply sublist_take].
  - intros c Hc. by eapply subseteq_take.
Qed.

Lemma community_cards_distinct_witness :
  reset Deck.full table5 = (Ok empty_table, hand5) /\
  exists s3, snd (step 0 (snd (step 1 (snd (step 2 hand5))))) = s3 /\
    NoDup (community (table s3)).
Proof.
  split; [vm_compute; reflexivity|].
  destruct (community_cards_distinct Deck.full table5 empty_table hand5 2 1 0)
    as (s1 & s2 & s3 & fl & tu & ri & H1 & H2 & H3 & _ & _ & _ & _ & _ & _ & Hnd & _).
  - vm_compute; reflexivity.
  - exact (Permutation_refl Deck.full).
  - exists s3. rewrite H1; cbn [snd]. rewrite H2; cbn [snd]. rewrite H3; cbn [snd].
    split; [reflexivity|exact Hnd].
Defined.

(** C8. In a [reset] that returns, every seat (at position [i]) has been
    given two hole cards, the cards at positions [2i] and [2i+1] of the
    deck as the previous hand left it; the deck the object holds afterwards
    is the freshly shuffled full deck produced by [deck.reset()], none of
    whose cards has been drawn: the first community draw takes its first
    three cards. *)
Theorem reset_deals_then_resets_deck fresh s tbl s' :
  reset fresh s = (Ok tbl, s') -> Deck.shuffled fresh ->
  length (players s') = length (players s) /\
  (2 * length (players s) <= length (deck s))%nat /\
  (forall i p', players s' !! i = Some p' ->
     Player.cards p' = take 2 (drop (2 * i) (deck s)) /\
     length (Player.cards p') = 2%nat) /\
  deck s' = fresh /\ deck s' ≡ₚ Deck.full /\
  forall a, slot_flop (table (snd (step a s'))) = Some (take 3 fresh).
Proof.
  intros Hreset Hfresh.
  assert (length fresh = 52%nat) as Hlen by exact (Permutation_length Hfresh).
  destruct (hand_advances fresh s tbl s' 0 0 0 Hreset) as (_ & _ & _ & Ht1 & _); [lia|].
  apply reset_Ok in Hreset
    as (k & p1 & p2 & HN & Hd & _ & _ & Hk & Hdeck & _ & _ & _ & Hs').
  split; [by rewrite Hs'; cbn; rewrite seated_length|].
  split; [done|]. split.
  - intros i p' Hp'. rewrite Hs' in Hp'; cbn in Hp'.
    rewrite seated_lookup in Hp' by done.
    destruct (players s !! i) as [p|] eqn:Hp; [|done].
    injection Hp' as <-. cbn [seat_after Player.cards]. split; [done|].
    apply lookup_lt_Some in Hp.
    rewrite length_take, length_drop. lia.
  - split; [by rewrite Hs'|]. split; [by rewrite Hs'|].
    intros a. rewrite (step_ignores_action a 0), step_preflop.
    + cbn [snd]. by rewrite Ht1.
    + by rewrite Hs'.
    + rewrite Hs'; cbn; lia.
Qed.

Lemma reset_deals_then_resets_deck_witness :
  reset (rev Deck.full) showdown5 = (Ok empty_table, snd (reset (rev Deck.full) showdown5)) /\
  deck (snd (reset (rev Deck.full) showdown5)) = rev Deck.full /\
  Player.cards <$> players (snd (reset (rev Deck.full) showdown5))
    = [[5; 6]; [7; 8]; [9; 10]; [11; 12]; [13; 14]]%nat.
Proof.
  assert (reset (rev Deck.full) showdown5
          = (Ok empty_table, snd (reset (rev Deck.full) showdown5))) as Hrun
    by (vm_compute; reflexivity).
  split; [exact Hrun|].
  destruct (reset_deals_then_resets_deck _ _ _ _ Hrun) as (_ & _ & _ & Hdeck & _).
  - unfold Deck.shuffled. apply Permutation_sym, Permutation_rev.
  - split; [exact Hdeck|]. vm_compute; reflexivity.
Defined.

Lemma blind_due_min blind p : blind_due blind p = Z.min (Player.stack p) blind.
Proof. unfold blind_due; case_decide; lia. Qed.

(** C9. In a [reset] that returns, the seat posting the small blind (the
    seat after the rotated dealer index) posts its entire stack, is marked
    all-in and is left with a stack of 0 when its stack is strictly less
    than the small blind; otherwise it posts the full small blind and its
    stack (and all-in mark) are left as they were; likewise the next seat
    against the big blind; [stake] is the sum of the two amounts.  In
    particular a stack of 5 against a small blind of 10 posts 5, is marked
    all-in and ends at 0. *)
Theorem reset_posts_blinds fresh s tbl s' :
  reset fresh s = (Ok tbl, s') ->
  let sb_seat := Z.to_nat (dealer_id s' + 1) in
  let bb_seat := Z.to_nat (dealer_id s' + 2) in
  exists p_sb p_bb p_sb' p_bb' posted_sb posted_bb,
    players s !! sb_seat = Some p_sb /\ players s' !! sb_seat = Some p_sb' /\
    players s !! bb_seat = Some p_bb /\ players s' !! bb_seat = Some p_bb' /\
    stake s' = Some (posted_sb + posted_bb) /\
    (Player.stack p_sb < small_blind s ->
       posted_sb = Player.stack p_sb /\
       Player.is_all_in p_sb' = true /\ Player.stack p_sb' = 0) /\
    (~ Player.stack p_sb < small_blind s ->
       posted_sb = small_blind s /\
       Player.stack p_sb' = Player.stack p_sb /\
       Player.is_all_in p_sb' = Player.is_all_in p_sb) /\
    (Player.stack p_bb < big_blind s ->
       posted_bb = Player.stack p_bb /\
       Player.is_all_in p_bb' = true /\ Player.stack p_bb' = 0) /\
    (~ Player.stack p_bb < big_blind s ->
       posted_bb = big_blind s /\
       Player.stack p_bb' = Player.stack p_bb /\
       Player.is_all_in p_bb' = Player.is_all_in p_bb) /\
    (Player.stack p_sb = 5 -> small_blind s = 10 ->
       posted_sb = 5 /\ Player.is_all_in p_sb' = true /\ Player.stack p_sb' = 0).
Proof.
  intros Hreset.
  apply reset_Ok in Hreset
    as (k & p1 & p2 & HN & Hd & Hd2 & _ & Hk & _ & Hp1 & Hp2 & _ & ->).
  cbn [dealer_id reset_state players stake].
  set (d' := (dealer_id s + 1) `mod` Z.of_nat (length (players s))) in *.
  exists p1, p2, (seat_after s d' k (Z.to_nat (d' + 1)) p1),
    (seat_after s d' k (Z.to_nat (d' + 2)) p2),
    (blind_due (small_blind s) p1), (blind_due (big_blind s) p2).
  rewrite !seated_lookup, Hp1, Hp2 by done.
  do 5 (split; [done|]).
  unfold seat_after, capped, blind_due; cbn.
  repeat split; intros;
    repeat case_decide;
    repeat (first [rewrite bool_decide_eq_true_2 by (split; [lia|done])
                  |rewrite bool_decide_eq_false_2 by lia]);
    cbn; try done; try lia.
Qed.

Lemma reset_posts_blinds_witness :
  reset Deck.full table5 = (Ok empty_table, hand5) /\
  stake hand5 = Some 30.
Proof.
  assert (reset Deck.full table5 = (Ok empty_table, hand5)) as Hrun
    by (vm_compute; reflexivity).
  split; [exact Hrun|].
  destruct (reset_posts_blinds _ _ _ _ Hrun)
    as (p_sb & p_bb & p_sb' & p_bb' & x & y & Hsb & _ & Hbb & _ & Hst
        & _ & Hfull_sb & _ & Hfull_bb & _).
  injection Hsb as <-. injection Hbb as <-.
  destruct Hfull_sb as [-> _]; [cbn; lia|].
  destruct Hfull_bb as [-> _]; [cbn; lia|].
  exact Hst.
Defined.

(** C3, as stated, fails.  [short4] is the table built with four seats,
    stacks of 5 and blinds of 10 and 20; its first hand left seats 1 and 2
    all-in.  After the next [reset] the blinds are posted by seats 2 and 3
    and the blind flags are on seat 3, but seat 1, which posts nothing, is
    still marked all-in. *)
Lemma blinds_claim_counterexample :
  init 4 5 10 1000 3 Deck.full Deck.full = Ok short4 /\
  reset Deck.full short4 = (Ok empty_table, short4_next) /\
  ~ blinds_claim short4 short4_next 2 3 /\
  ~ blinds_claim short4 short4_next 3 3.
Proof.
  split; [vm_compute; reflexivity|]. split; [vm_compute; reflexivity|].
  split; intros (p_sb & p_bb & _ & _ & _ & Hiff);
    destruct (Hiff 1%nat _ _ eq_refl eq_refl) as [Hmarked _];
    destruct (Hmarked eq_refl) as [[? _]|[? _]]; discriminate.
Qed.

(** C3, amended. After a [reset] that returns, [stake] is
    [min(stack_sb, small_blind) + min(stack_bb, big_blind)] on the stacks
    before [reset] of the two seats that post the blinds, the seats after
    the rotated dealer index; and a seat is marked all-in exactly when it
    was marked before [reset] or its posted contribution was capped by its
    stack. *)
Theorem reset_stake fresh s tbl s' :
  reset fresh s = (Ok tbl, s') ->
  exists p_sb p_bb,
    players s !! Z.to_nat (dealer_id s' + 1) = Some p_sb /\
    players s !! Z.to_nat (dealer_id s' + 2) = Some p_bb /\
    stake s' = Some (Z.min (Player.stack p_sb) (small_blind s)
                     + Z.min (Player.stack p_bb) (big_blind s)) /\
    forall (i : nat) p p',
      players s !! i = Some p -> players s' !! i = Some p' ->
      (Player.is_all_in p' = true <->
         Player.is_all_in p = true \/
         (Z.of_nat i = dealer_id s' + 1 /\ Player.stack p < small_blind s) \/
         (Z.of_nat i = dealer_id s' + 2 /\ Player.stack p < big_blind s)).
Proof.
  intros Hreset.
  apply reset_Ok in Hreset
    as (k & p1 & p2 & HN & Hd & Hd2 & _ & Hk & _ & Hp1 & Hp2 & _ & ->).
  cbn [dealer_id reset_state players stake].
  set (d' := (dealer_id s + 1) `mod` Z.of_nat (length (players s))) in *.
  exists p1, p2. split; [done|]. split; [done|].
  split; [by rewrite !blind_due_min|].
  intros i p p' Hp Hp'. rewrite seated_lookup, Hp in Hp' by done.
  injection Hp' as <-. unfold seat_after, capped; cbn.
  rewrite !orb_true_iff, !bool_decide_eq_true. tauto.
Qed.

Lemma reset_stake_witness :
  reset Deck.full short4 = (Ok empty_table, short4_next) /\
  stake short4_next = Some 5.
Proof.
  assert (reset Deck.full short4 = (Ok empty_table, short4_next)) as Hrun
    by (vm_compute; reflexivity).
  split; [exact Hrun|].
  destruct (reset_stake _ _ _ _ Hrun) as (p_sb & p_bb & Hsb & Hbb & Hst & _).
  injection Hsb as <-. injection Hbb as <-. exact Hst.
Defined.

(** C10, as stated, fails: [Player.reset] deactivates an active seat. *)
Lemma reset_for_new_hand_claim_counterexample :
  ~ reset_for_new_hand_claim (Player.init 0 1000).
Proof. intros (_ & _ & _ & _ & _ & _ & Hactive). discriminate Hactive. Qed.

(** C10, amended. For every seat, [Player.reset] clears the hole cards
    and the flags all-in, dealer, small blind and big blind, leaves the
    stack (and the seat id) unchanged, and sets [is_active] to false. *)
Theorem Player_reset_clears p :
  Player.cards (Player.reset p) = [] /\
  Player.is_all_in (Player.reset p) = false /\
  Player.is_dealer (Player.reset p) = false /\
  Player.is_small_blind (Player.reset p) = false /\
  Player.is_big_blind (Player.reset p) = false /\
  Player.stack (Player.reset p) = Player.stack p /\
  Player.id (Player.reset p) = Player.id p /\
  Player.is_active (Player.reset p) = false.
Proof. by repeat split. Qed.

(** C7: the code at the failing input.  The action 7 is outside the action
    space and [_check_action] raises [ValueError] on it, but [step] never
    calls [_check_action]: on [table5] it returns for action 7 exactly what
    it returns for action 0, having dealt the flop. *)
Theorem step_accepts_invalid_action :
  in_action_space 7 = false /\
  _check_action 7 table5 = (Raise ValueError, table5) /\
  step 7 table5 = step (Action_value FOLD) table5 /\
  fst (step 7 table5)
    = Ok (mkTable (Some [0; 1; 2]%nat) None None, 0, false, tt) /\
  game_state (snd (step 7 table5)) = InPhase FLOP.
Proof. by repeat split. Qed.

(** C2: the code at failing inputs.  On [table3] all three seats are
    active and only seat 2 carries the dealer flag.  Asked for the seat
    after seat 0 the scan passes over the active seat 1 and returns seat 2;
    asked for the seat after seat 2 it returns seat 2 itself.  The scan
    does not wrap around: started at seat 1 with the dealer flag on seat 0
    alone it runs off the end of the list and raises [IndexError]. *)
Theorem get_next_stops_on_dealer_flag :
  Player.is_active <$> players table3 = [true; true; true] /\
  Player.is_dealer <$> players table3 = [false; false; true] /\
  fst (__get_next_active_player_id 0 table3) = Ok 2 /\
  fst (__get_next_active_player_id 2 table3) = Ok 2 /\
  scan 3 [Player.set_is_dealer true (Player.init 0 1000);
          Player.init 1 1000; Player.init 2 1000] 1 = Raise IndexError /\
  init 3 1000 10 1000 0 Deck.full Deck.full = Raise IndexError.
Proof. by repeat split. Qed.

(** X22. After every [reset] that returns, one seat carries the dealer, the
    small-blind and the big-blind flag together. *)
Lemma reset_roles_coincide fresh s tbl s' :
  reset fresh s = (Ok tbl, s') ->
  exists (i : nat) p',
    players s' !! i = Some p' /\
    Player.is_dealer p' = true /\ Player.is_small_blind p' = true /\
    Player.is_big_blind p' = true.
Proof.
  intros Hreset.
  apply reset_Ok in Hreset
    as (k & p1 & p2 & _ & Hd & _ & Hnext & Hk & _ & _ & _ & _ & ->).
  apply get_next_start in Hnext as (_ & p & Hp & Hdealer).
  set (d' := (dealer_id s + 1) `mod` Z.of_nat (length (players s))) in *.
  exists (Z.to_nat k), (seat_after s d' k (Z.to_nat k) p).
  cbn [players reset_state]. rewrite seated_lookup, Hp by done.
  split; [done|]. unfold seat_after; cbn.
  by rewrite Hdealer, bool_decide_eq_true_2 by lia.
Qed.

(** C1: the code at the failing input.  On the table of five seats built
    with the button drawn on seat 4, the constructor's [reset] returns with
    the dealer index at seat 0 while the dealer, small-blind and big-blind
    flags are all three on seat 4; the next [reset] moves the dealer index
    to seat 1 and leaves the three flags on seat 4. *)
Theorem reset_roles_on_one_seat :
  init 5 1000 10 1000 4 Deck.full Deck.full = Ok table5 /\
  dealer_id table5 = 0 /\
  roles table5 = [(false, false, false); (false, false, false);
                  (false, false, false); (false, false, false);
                  (true, true, true)] /\
  reset Deck.full table5 = (Ok empty_table, hand5) /\
  dealer_id hand5 = 1 /\
  roles hand5 = roles table5.
Proof. by repeat split. Qed.

(** ** [reset] near the end of the seat list *)

(** With the rotated dealer index on one of the last two seats, [reset]
    raises [IndexError], in the scan or in the blind posting. *)
Lemma reset_IndexError fresh s :
  let N := length (players s) in
  (0 < N)%nat -> active_players s <> [] ->
  (2 * N <= length (deck s))%nat ->
  Z.of_nat N - 2 <= (dealer_id s + 1) mod Z.of_nat N ->
  fst (reset fresh s) = Raise IndexError.
Proof.
  intros N HN Hact Hdeck Hlast. rewrite reset_eq, py_mod_pos by done.
  fold N. set (d' := (dealer_id s + 1) `mod` Z.of_nat N) in *.
  assert (0 <= d' < Z.of_nat N) as Hd by (apply Z.mod_pos_bound; lia).
  destruct (fst (__get_next_active_player_id (d' + 1) s)) as [k|e] eqn:Hk.
  2:{ apply get_next_raises in Hk as [->|[_ ?]]; done. }
  rewrite deal_loop_enough by (rewrite !length_alter, length_fmap; done).
  cbv zeta.
  destruct (py_get _ (d' + 1)) as [q1|e] eqn:Hq1.
  2:{ cbn. f_equal. by eapply py_get_raises. }
  destruct (py_get _ (d' + 2)) as [q2|e] eqn:Hq2.
  2:{ cbn. f_equal. by eapply py_get_raises. }
  apply py_get_nonneg in Hq2 as [Hlt _]; [|lia].
  cbn [players posted set_players set_stake set_deck] in Hlt.
  rewrite !length_alter, deal_cards_length, !length_alter, length_fmap in Hlt.
  fold N in Hlt. lia.
Qed.

(** With the rotated dealer index on one of the last two seats, [reset]
    does not return. *)
Lemma reset_not_ok fresh s :
  let N := length (players s) in
  Z.of_nat N - 2 <= (dealer_id s + 1) mod Z.of_nat N ->
  is_ok (fst (reset fresh s)) = false.
Proof.
  intros N Hlast. destruct (reset fresh s) as [[tbl|e] s'] eqn:Hr; [|done].
  apply reset_Ok in Hr as (_ & _ & _ & _ & _ & ? & _). subst N. lia.
Qed.

(** What every call of [reset] preserves, whether it returns or raises. *)
Lemma reset_frame fresh s r s' :
  reset fresh s = (r, s') ->
  let N := length (players s) in
  (0 < N)%nat ->
  length (players s') = N /\
  active_players s' = active_players s /\
  dealer_id s' = (dealer_id s + 1) mod Z.of_nat N.
Proof.
  intros Hreset N HN. rewrite reset_eq, py_mod_pos in Hreset by done.
  fold N in Hreset. set (d' := (dealer_id s + 1) `mod` Z.of_nat N) in *.
  destruct (fst (__get_next_active_player_id (d' + 1) s)) as [k|e] eqn:Hk.
  2:{ injection Hreset as _ <-. cbn. by rewrite length_fmap. }
  pose proof (deal_loop_length
    (alter (Player.set_is_big_blind true) (Z.to_nat k)
       (alter (Player.set_is_small_blind true) (Z.to_nat k)
          (Player.set_cards [] <$> players s))) (deck s)) as Hlen.
  rewrite !length_alter, length_fmap in Hlen. fold N in Hlen.
  destruct (deal_loop _ _) as [[r0 ps] d]. cbn [fst snd] in Hlen.
  cbv zeta in Hreset.
  destruct r0 as [[]|e]; [|by injection Hreset as _ <-].
  destruct (py_get ps (d' + 1)) as [q1|e] eqn:Hq1;
    [|by injection Hreset as _ <-].
  destruct (py_get _ (d' + 2)) as [q2|e] eqn:Hq2;
    injection Hreset as _ <-; cbn;
    by rewrite ?length_fmap, !length_alter.
Qed.

(** With enough cards to serve every seat, the deck a call of [reset]
    leaves is the one it found (when the scan raised) or the fresh one. *)
Lemma reset_frame_deck fresh s r s' :
  reset fresh s = (r, s') ->
  (0 < length (players s))%nat ->
  (2 * length (players s) <= length (deck s))%nat ->
  deck s' = deck s \/ deck s' = fresh.
Proof.
  intros Hreset HN Hdeck. rewrite reset_eq, py_mod_pos in Hreset by done.
  destruct (fst (__get_next_active_player_id _ s)) as [k|e] eqn:Hk.
  2:{ injection Hreset as _ <-. by left. }
  rewrite deal_loop_enough in Hreset
    by (rewrite !length_alter, length_fmap; done).
  cbv zeta in Hreset.
  destruct (py_get _ _) as [q1|e] eqn:Hq1; [|injection Hreset as _ <-; by right].
  destruct (py_get _ _) as [q2|e] eqn:Hq2 in Hreset;
    injection Hreset as _ <-; by right.
Qed.

Lemma rotation_step (d : Z) (j : nat) (n : Z) :
  ((d + 1) mod n + 1 + Z.of_nat j) mod n = (d + 1 + Z.of_nat (S j)) mod n.
Proof.
  rewrite <-Z.add_assoc, Zplus_mod_idemp_l. f_equal; lia.
Qed.

(** The call of a run whose rotated dealer index falls on one of the last
    two seats does not return. *)
Lemma resets_reach freshes : forall s (j : nat),
  let N := length (players s) in
  (0 < N)%nat -> (j < length freshes)%nat ->
  Z.of_nat N - 2 <= (dealer_id s + 1 + Z.of_nat j) mod Z.of_nat N ->
  exists r, r ∈ fst (resets freshes s) /\ is_ok r = false.
Proof.
  induction freshes as [|fresh freshes IH]; intros s j N HN Hj Hlast;
    [cbn in Hj; lia|].
  cbn [resets].
  destruct (reset fresh s) as [r s1] eqn:Hr.
  destruct (resets freshes s1) as [rs s2] eqn:Hrs. cbn [fst].
  destruct j as [|j].
  - rewrite Z.add_0_r in Hlast.
    pose proof (reset_not_ok fresh s Hlast) as Hraise.
    rewrite Hr in Hraise. exists r. split; [apply list_elem_of_here|done].
  - destruct (reset_frame _ _ _ _ Hr HN) as (Hlen & Ha & Hd).
    destruct (IH s1 j) as (r' & Hin & Hfail).
    + by rewrite Hlen.
    + cbn [length] in Hj. lia.
    + rewrite Hlen, Hd. fold N. by rewrite rotation_step.
    + rewrite Hrs in Hin. exists r'. split; [by apply list_elem_of_further|done].
Qed.

(** The same call raises [IndexError] when no call of the run is short of
    cards. *)
Lemma resets_reach_IndexError freshes : forall s (j : nat),
  let N := length (players s) in
  (0 < N <= 26)%nat -> active_players s <> [] ->
  (2 * N <= length (deck s))%nat ->
  Forall Deck.shuffled freshes -> (j < length freshes)%nat ->
  Z.of_nat N - 2 <= (dealer_id s + 1 + Z.of_nat j) mod Z.of_nat N ->
  Raise IndexError ∈ fst (resets freshes s).
Proof.
  induction freshes as [|fresh freshes IH]; intros s j N HN Hact Hdeck Hfr Hj Hlast;
    [cbn in Hj; lia|].
  cbn [resets].
  destruct (reset fresh s) as [r s1] eqn:Hr.
  destruct (resets freshes s1) as [rs s2] eqn:Hrs. cbn [fst].
  destruct j as [|j].
  - rewrite Z.add_0_r in Hlast.
    pose proof (reset_IndexError fresh s ltac:(lia) Hact Hdeck Hlast) as Hraise.
    rewrite Hr in Hraise; cbn in Hraise. subst r. apply list_elem_of_here.
  - apply list_elem_of_further.
    destruct (reset_frame _ _ _ _ Hr ltac:(lia)) as (Hlen & Ha & Hd).
    destruct (reset_frame_deck _ _ _ _ Hr ltac:(lia) Hdeck) as [Hdk|Hdk].
    all: apply Forall_cons in Hfr as [Hfresh Hfr].
    all: specialize (IH s1 j); rewrite Hrs in IH; cbn [fst] in IH.
    all: rewrite Hlen in IH; apply IH; try done.
    all: try (by rewrite Ha).
    all: try (cbn [length] in Hj; lia).
    all: try (rewrite Hd; fold N; by rewrite rotation_step).
    + by rewrite Hdk.
    + rewrite Hdk, (Permutation_length Hfresh). cbn. lia.
Qed.

Lemma rotation_reaches_last (d : Z) (n : nat) :
  (0 < n)%nat ->
  exists j : nat, (j < n)%nat /\
    Z.of_nat n - 2 <= (d + 1 + Z.of_nat j) mod Z.of_nat n.
Proof.
  intros Hn. set (r := (d + 1) `mod` Z.of_nat n).
  assert (0 <= r < Z.of_nat n) as Hr by (apply Z.mod_pos_bound; lia).
  exists (Z.to_nat (Z.of_nat n - 1 - r)). split; [lia|].
  rewrite Z2Nat.id by lia.
  rewrite <-Zplus_mod_idemp_l. fold r.
  replace (r + (Z.of_nat n - 1 - r)) with (Z.of_nat n - 1) by lia.
  rewrite Z.mod_small; lia.
Qed.

(** C4. [reset] subscripts the seats at [dealer_id + 1] and
    [dealer_id + 2] without wrap-around.  On every table with at least one
    seat the dealer index advances by one (modulo the seat count) at every
    call of [reset], returning or not; when the rotated index falls on one
    of the last two seats [reset] does not return; hence some call in any
    run of as many consecutive calls as there are seats does not return.
    On a table with the attributes a constructed table has ([active_players]
    filled by the constructor, at most 26 seats and enough cards left to
    serve every seat) the exception raised there is [IndexError], the
    out-of-range seat access. *)
Theorem reset_fails_without_wraparound s :
  let N := length (players s) in
  (0 < N)%nat ->
  (forall fresh r s',
     reset fresh s = (r, s') ->
     dealer_id s' = (dealer_id s + 1) mod Z.of_nat N) /\
  (forall fresh,
     Z.of_nat N - 2 <= (dealer_id s + 1) mod Z.of_nat N ->
     is_ok (fst (reset fresh s)) = false) /\
  (forall freshes,
     length freshes = N ->
     exists r, r ∈ fst (resets freshes s) /\ is_ok r = false) /\
  ((N <= 26)%nat -> active_players s <> [] ->
   (2 * N <= length (deck s))%nat ->
   (forall fresh,
      Z.of_nat N - 2 <= (dealer_id s + 1) mod Z.of_nat N ->
      fst (reset fresh s) = Raise IndexError) /\
   (forall freshes,
      length freshes = N -> Forall Deck.shuffled freshes ->
      Raise IndexError ∈ fst (resets freshes s))).
Proof.
  intros N HN. split; [|split; [|split]].
  - intros fresh r s' Hr.
    by destruct (reset_frame _ _ _ _ Hr HN) as (_ & _ & ?).
  - intros fresh Hlast. by apply reset_not_ok.
  - intros freshes Hlen.
    destruct (rotation_reaches_last (dealer_id s) N HN) as (j & Hj & Hlast).
    apply (resets_reach freshes s j); [done|lia|done].
  - intros HN26 Hact Hdeck. split.
    + intros fresh Hlast. by apply reset_IndexError.
    + intros freshes Hlen Hfr.
      destruct (rotation_reaches_last (dealer_id s) N HN) as (j & Hj & Hlast).
      apply (resets_reach_IndexError freshes s j); [lia|done..|lia|done].
Qed.

Lemma reset_fails_without_wraparound_witness :
  reset Deck.full hand5 = (Ok empty_table, third5) /\
  fst (reset Deck.full third5) = Raise IndexError /\
  Raise IndexError
    ∈ fst (resets [Deck.full; Deck.full; Deck.full; Deck.full; Deck.full] table5).
Proof.
  split; [vm_compute; reflexivity|].
  destruct (reset_fails_without_wraparound third5)
    as (_ & _ & _ & Hthird); [cbn; lia|].
  destruct Hthird as [Hlast _]; [cbn; lia|done|cbn; lia|].
  destruct (reset_fails_without_wraparound table5)
    as (_ & _ & _ & Hfirst); [cbn; lia|].
  destruct Hfirst as [_ Hrun]; [cbn; lia|done|cbn; lia|].
  split.
  - apply Hlast. vm_compute. discriminate.
  - apply Hrun; [reflexivity|].
    repeat (apply Forall_cons; split; [exact (Permutation_refl Deck.full)|]).
    apply Forall_nil_2.
Defined.

(** * Further properties of the code *)

(** ** [StateMachine.get_next] *)


(** ** [_get_active_players] *)

Lemma active_from_elem ps : forall idx i,
  i ∈ active_from idx ps <->
  exists (k : nat) p,
    i = idx + Z.of_nat k /\ ps !! k = Some p /\ Player.is_active p = true.
Proof.
  induction ps as [|q ps IH]; intros idx i; cbn [active_from].
  - split; [by intros ?%elem_of_nil|by intros (k & p & _ & ? & _)].
  - assert (i ∈ active_from (idx + 1) ps <->
            exists (k : nat) p, i = idx + Z.of_nat (S k) /\ ps !! k = Some p /\
                                Player.is_active p = true) as IH'.
    { rewrite IH. split; intros (k & p & Hi & Hp & Hact); exists k, p;
        repeat split; try done; lia. }
    destruct (Player.is_active q) eqn:Hq.
    + rewrite elem_of_cons, IH'. split.
      * intros [->|(k & p & ? & ? & ?)]; [exists 0%nat, q|exists (S k), p];
          repeat split; try done; lia.
      * intros ([|k] & p & -> & Hp & Hact); [left; lia|right; by exists k, p].
    + rewrite IH'. split.
      * intros (k & p & ? & ? & ?). by exists (S k), p.
      * intros ([|k] & p & -> & Hp & Hact); [|by exists k, p].
        cbn in Hp. congruence.
Qed.

Lemma active_from_sorted ps : forall idx,
  StronglySorted Z.lt (active_from idx ps) /\
  Forall (fun i => idx <= i) (active_from idx ps).
Proof.
  induction ps as [|q ps IH]; intros idx; cbn [active_from].
  - split; constructor.
  - destruct (IH (idx + 1)) as [Hs Hge].
    assert (Forall (fun i => idx < i) (active_from (idx + 1) ps)) as Hgt
      by (eapply Forall_impl; [exact Hge|intros; cbn in *; lia]).
    destruct (Player.is_active q).
    + split; [by constructor|].
      constructor; [lia|]. eapply Forall_impl; [exact Hgt|intros; cbn in *; lia].
    + split; [done|]. eapply Forall_impl; [exact Hgt|intros; cbn in *; lia].
Qed.

(** X2. [_get_active_players] returns, without changing the object, the
    positions of the seats whose [is_active] flag is set, each once and in
    ascending order. *)
Theorem get_active_players_spec s :
  exists l,
    _get_active_players s = (Ok l, s) /\
    StronglySorted Z.lt l /\
    forall i, i ∈ l <->
      0 <= i /\ exists p, players s !! Z.to_nat i = Some p /\
                          Player.is_active p = true.
Proof.
  exists (active_from 0 (players s)). split; [done|].
  split; [apply active_from_sorted|].
  intros i. rewrite active_from_elem. split.
  - intros (k & p & -> & Hp & Hact). split; [lia|].
    exists p. by rewrite Z.add_0_l, Nat2Z.id.
  - intros (Hi & p & Hp & Hact). exists (Z.to_nat i), p.
    split; [lia|done].
Qed.

(** ** [__get_next_active_player_id] *)

(** The scan reaches the first flagged seat at or after its start when it
    has iterations enough to walk there. *)
Lemma scan_first ps (k : Z) p : forall fuel i,
  0 <= i <= k -> k - i <= Z.of_nat fuel ->
  ps !! Z.to_nat k = Some p -> Player.is_dealer p = true ->
  (forall j q, i <= j < k -> ps !! Z.to_nat j = Some q ->
               Player.is_dealer q = false) ->
  scan fuel ps i = Ok k.
Proof.
  induction fuel as [|fuel IH]; intros i Hi Hfuel Hp Hd Hbefore; cbn [scan].
  - assert (i = k) as -> by lia.
    by rewrite (py_get_in_range ps k p), Hd by (done || lia).
  - destruct (decide (i = k)) as [->|Hne].
    { by rewrite (py_get_in_range ps k p), Hd by (done || lia). }
    destruct (lookup_lt_is_Some_2 ps (Z.to_nat i)) as [q Hq].
    { apply lookup_lt_Some in Hp. lia. }
    rewrite (py_get_in_range ps i q), (Hbefore i q) by (done || lia).
    apply IH; try done; try lia.
    intros j q' Hj. apply Hbefore. lia.
Qed.

(** Among the seats from [i] on, one carrying the dealer flag at [k]
    gives a first one. *)
Lemma first_dealer_from (ps : list Player.t) (k : nat) p : forall (n : nat) (i : Z),
  0 <= i -> Z.of_nat k - i = Z.of_nat n ->
  ps !! k = Some p -> Player.is_dealer p = true ->
  exists (k' : Z) p', i <= k' <= Z.of_nat k /\
    ps !! Z.to_nat k' = Some p' /\ Player.is_dealer p' = true /\
    forall j q, i <= j < k' -> ps !! Z.to_nat j = Some q ->
                Player.is_dealer q = false.
Proof.
  induction n as [|n IH]; intros i Hi Hn Hp Hd.
  - exists i, p. assert (i = Z.of_nat k) as -> by lia.
    rewrite Nat2Z.id. repeat split; try done; try lia.
  - destruct (lookup_lt_is_Some_2 ps (Z.to_nat i)) as [q Hq].
    { apply lookup_lt_Some in Hp. lia. }
    destruct (Player.is_dealer q) eqn:Hdq.
    + exists i, q. repeat split; try done; try lia.
    + destruct (IH (i + 1)) as (k' & p' & Hk' & Hp' & Hd' & Hbefore);
        try done; try lia.
      exists k', p'. repeat split; try done; try lia.
      intros j q' Hj Hq'. destruct (decide (j = i)) as [->|Hne].
      * congruence.
      * apply (Hbefore j q'); [lia|done].
Qed.

(** X3. With a non-empty [active_players], the scan of
    [__get_next_active_player_id] starts at
    [(current_player + 1) % len(active_players)] and returns [k] exactly
    when seat [k] is the first seat at or after the start that carries the
    dealer flag, whatever the [is_active] flags are; it returns whenever
    some seat at or after the start carries the flag, raises nothing but
    [IndexError] otherwise, and never changes the object. *)
Theorem get_next_spec c s :
  let start := (c + 1) mod Z.of_nat (length (active_players s)) in
  active_players s <> [] ->
  snd (__get_next_active_player_id c s) = s /\
  (forall k,
     fst (__get_next_active_player_id c s) = Ok k <->
     start <= k /\
     (exists p, players s !! Z.to_nat k = Some p /\ Player.is_dealer p = true) /\
     (forall j q, start <= j < k -> players s !! Z.to_nat j = Some q ->
                  Player.is_dealer q = false)) /\
  (forall (k : nat) p,
     start <= Z.of_nat k -> players s !! k = Some p ->
     Player.is_dealer p = true ->
     is_ok (fst (__get_next_active_player_id c s)) = true) /\
  (forall e, fst (__get_next_active_player_id c s) = Raise e -> e = IndexError).
Proof.
  intros start Hact. rewrite get_next_eq; cbn [fst snd].
  assert (0 < length (active_players s))%nat as Hn
    by (destruct (active_players s); [done|cbn; lia]).
  rewrite py_mod_pos by done. fold start.
  assert (0 <= start < Z.of_nat (length (active_players s))) as Hstart
    by (apply Z.mod_pos_bound; lia).
  split; [done|]. split; [|split].
  - intros k. split.
    + intros Hk. apply scan_Ok in Hk as (? & ? & ?); [|lia..].
      repeat split; (done || lia).
    + intros (Hk & (p & Hp & Hd) & Hbefore).
      apply (scan_first _ k p); try done; try lia.
      apply lookup_lt_Some in Hp. lia.
  - intros k p Hk Hp Hd.
    destruct (first_dealer_from (players s) k p (Z.to_nat (Z.of_nat k - start)) start)
      as (k' & p' & Hk' & Hp' & Hd' & Hbefore); try done; try lia.
    rewrite (scan_first _ k' p'); try done; try lia.
    apply lookup_lt_Some in Hp'. lia.
  - intros e. apply scan_raises.
Qed.

Lemma get_next_spec_witness :
  table5.(active_players) <> [] /\
  fst (__get_next_active_player_id 1 table5) = Ok 4.
Proof.
  assert (active_players table5 <> []) as Hact by done.
  split; [exact Hact|].
  destruct (get_next_spec 1 table5 Hact) as (_ & Hiff & _).
  apply Hiff. split; [vm_compute; discriminate|].
  split; [by eexists|].
  intros j q Hj. change (2 <= j < 4) in Hj.
  assert (j = 2 \/ j = 3) as [-> | ->] by lia; by intros [= <-].
Defined.

(** ** [_set_dealer], [_set_small_blind], [_set_big_blind] *)

Lemma set_dealer_eq s :
  _set_dealer s =
  match fst (__get_next_active_player_id (dealer_id s + 1) s) with
  | Ok k =>
      match py_alter (Player.set_is_dealer true) (players s) k with
      | Ok ps' => (Ok tt, set_dealer_id k (set_players ps' s))
      | Raise e => (Raise e, s)
      end
  | Raise e => (Raise e, s)
  end.
Proof.
  unfold _set_dealer, bind at 1, gets at 1.
  unfold bind at 1; rewrite get_next_eq; cbn [fst].
  destruct (py_mod _ _) as [start|]; [|done].
  destruct (scan _ _ _) as [k|]; [|done].
  unfold bind. rewrite update_player_eq.
  by destruct (py_alter _ _ _).
Qed.

Lemma alter_dealer_flag_set (ps : list Player.t) (k : nat) p :
  ps !! k = Some p -> Player.is_dealer p = true ->
  alter (Player.set_is_dealer true) k ps = ps.
Proof.
  intros Hp Hd. rewrite <-(list_alter_id id ps k) at 2 by done.
  apply list_alter_ext; [|done]. intros x Hx.
  assert (x = p) as -> by congruence. destruct p; cbn in *. by subst.
Qed.

(** X4. [_set_dealer] never moves the dealer flag: when it returns, no
    seat has changed, and [dealer_id] is the position of a seat that
    carried the dealer flag already. *)
Theorem set_dealer_keeps_flags s s' :
  _set_dealer s = (Ok tt, s') ->
  players s' = players s /\
  0 <= dealer_id s' /\
  exists p, players s !! Z.to_nat (dealer_id s') = Some p /\
            Player.is_dealer p = true.
Proof.
  rewrite set_dealer_eq.
  destruct (fst (__get_next_active_player_id _ s)) as [k|] eqn:Hk; [|done].
  apply get_next_start in Hk as (Hr & p & Hp & Hd).
  rewrite py_alter_in_range, (alter_dealer_flag_set _ _ p) by done.
  intros [= <-]. cbn. split; [done|]. split; [lia|by exists p].
Qed.

Lemma set_dealer_keeps_flags_witness :
  _set_dealer table5 = (Ok tt, snd (_set_dealer table5)) /\
  players (snd (_set_dealer table5)) = players table5 /\
  dealer_id (snd (_set_dealer table5)) = 4.
Proof.
  assert (_set_dealer table5 = (Ok tt, snd (_set_dealer table5))) as Hrun
    by (vm_compute; reflexivity).
  split; [exact Hrun|].
  destruct (set_dealer_keeps_flags _ _ Hrun) as (Hps & _).
  split; [exact Hps|]. vm_compute; reflexivity.
Defined.

(** X5. When [_set_small_blind] returns it has set the small-blind flag
    of a seat that carries the dealer flag and changed nothing else; a
    call of [_set_big_blind] after it returns as well and sets the
    big-blind flag of that same seat. *)
Theorem set_blinds_same_seat s s1 :
  _set_small_blind s = (Ok tt, s1) ->
  exists (k : nat) p,
    players s !! k = Some p /\ Player.is_dealer p = true /\
    s1 = set_players (alter (Player.set_is_small_blind true) k (players s)) s /\
    _set_big_blind s1 =
      (Ok tt,
       set_players (alter (Player.set_is_big_blind true) k (players s1)) s1).
Proof.
  rewrite set_small_blind_eq.
  destruct (fst (__get_next_active_player_id _ s)) as [k|] eqn:Hk; [|done].
  pose proof (get_next_start _ _ _ Hk) as (Hr & p & Hp & Hd).
  rewrite update_player_eq, py_alter_in_range by done.
  intros [= <-]. exists (Z.to_nat k), p. do 3 (split; [done|]).
  rewrite set_big_blind_eq. cbn [dealer_id set_players].
  erewrite get_next_flags; [rewrite Hk|done|]; cycle 1.
  { cbn. by apply alter_flag_dealer. }
  rewrite update_player_eq. cbn [players set_players].
  by rewrite py_alter_in_range by (rewrite length_alter; done).
Qed.

Lemma set_blinds_same_seat_witness :
  _set_small_blind table5 = (Ok tt, snd (_set_small_blind table5)) /\
  is_ok (fst (_set_big_blind (snd (_set_small_blind table5)))) = true.
Proof.
  assert (_set_small_blind table5 = (Ok tt, snd (_set_small_blind table5)))
    as Hrun by (vm_compute; reflexivity).
  split; [exact Hrun|].
  destruct (set_blinds_same_seat _ _ Hrun) as (k & p & _ & _ & _ & Hbb).
  by rewrite Hbb.
Defined.

(** ** When [reset] returns *)

(** X6. [reset] returns exactly when the table has a seat and a non-empty
    [active_players], some seat at or after position
    [(d' + 2) % len(active_players)] carries the dealer flag ([d'] being
    the rotated dealer index), the deck holds two cards for every seat, and
    [d' + 2] is the position of a seat. *)
Theorem reset_returns_iff fresh s :
  let N := length (players s) in
  let d' := (dealer_id s + 1) mod Z.of_nat N in
  let start := (d' + 2) mod Z.of_nat (length (active_players s)) in
  is_ok (fst (reset fresh s)) = true <->
  (0 < N)%nat /\ active_players s <> [] /\
  (exists (k : nat) p, start <= Z.of_nat k /\ players s !! k = Some p /\
                       Player.is_dealer p = true) /\
  (2 * N <= length (deck s))%nat /\
  d' + 2 < Z.of_nat N.
Proof.
  intros N d' start. split.
  - destruct (reset fresh s) as [[tbl|e] s'] eqn:Hr; [|done]. intros _.
    apply reset_Ok in Hr
      as (k & p1 & p2 & HN & Hd & Hd2 & Hk & Hk0 & Hdeck & _).
    fold N d' in Hd, Hd2, Hk, Hdeck.
    assert (active_players s <> []) as Hact.
    { intros Hnil. rewrite get_next_eq, Hnil in Hk. discriminate. }
    do 2 (split; [done|]). split; [|done].
    destruct (get_next_spec (d' + 1) s Hact) as (_ & Hiff & _).
    apply Hiff in Hk as (Hstart & (p & Hp & Hdl) & _).
    exists (Z.to_nat k), p. rewrite Z2Nat.id by lia. subst start.
    replace (d' + 2) with (d' + 1 + 1) by lia. auto.
  - intros (HN & Hact & (k & p & Hk & Hp & Hdl) & Hdeck & Hd2).
    assert (0 <= d' < Z.of_nat N) as Hd by (apply Z.mod_pos_bound; lia).
    destruct (get_next_spec (d' + 1) s Hact) as (_ & _ & Hret & _).
    specialize (Hret k p). replace (d' + 1 + 1) with (d' + 2) in Hret by lia.
    specialize (Hret Hk Hp Hdl).
    rewrite reset_eq, py_mod_pos by done. fold N d'.
    destruct (fst (__get_next_active_player_id (d' + 1) s)) as [k'|] eqn:Hk';
      [|done].
    rewrite deal_loop_enough by (rewrite !length_alter, length_fmap; done).
    cbv zeta.
    match goal with |- context [py_get ?l (d' + 1)] =>
      destruct (lookup_lt_is_Some_2 l (Z.to_nat (d' + 1))) as [q1 Hq1];
      [rewrite deal_cards_length, !length_alter, length_fmap; fold N; lia|];
      rewrite (py_get_in_range l (d' + 1) q1) by (done || lia)
    end.
    match goal with |- context [py_get ?l (d' + 2)] =>
      destruct (lookup_lt_is_Some_2 l (Z.to_nat (d' + 2))) as [q2 Hq2];
      [cbn; rewrite !length_alter, deal_cards_length, !length_alter,
         length_fmap; fold N; lia|];
      rewrite (py_get_in_range l (d' + 2) q2) by (done || lia)
    end.
    done.
Qed.

(** X7. A [reset] that returns keeps the number of seats and, seat by
    seat, the id and the dealer flag; it never clears a small-blind or
    big-blind flag, and sets both or neither; it leaves every seat active;
    and it leaves the stack and the all-in mark of every seat but the two
    posting ones as they were, a stack being otherwise either kept or set
    to 0. *)
Theorem reset_keeps_seats fresh s tbl s' :
  reset fresh s = (Ok tbl, s') ->
  length (players s') = length (players s) /\
  forall (i : nat) p,
    players s !! i = Some p ->
    exists p',
      players s' !! i = Some p' /\
      Player.id p' = Player.id p /\
      Player.is_dealer p' = Player.is_dealer p /\
      Player.is_active p' = true /\
      (Player.is_small_blind p = true -> Player.is_small_blind p' = true) /\
      (Player.is_big_blind p = true -> Player.is_big_blind p' = true) /\
      (Player.is_small_blind p = false -> Player.is_big_blind p = false ->
       Player.is_small_blind p' = Player.is_big_blind p') /\
      (Player.stack p' = Player.stack p \/ Player.stack p' = 0) /\
      (Z.of_nat i <> dealer_id s' + 1 -> Z.of_nat i <> dealer_id s' + 2 ->
       Player.stack p' = Player.stack p /\
       Player.is_all_in p' = Player.is_all_in p).
Proof.
  intros Hreset.
  apply reset_Ok in Hreset
    as (k & p1 & p2 & HN & Hd & Hd2 & _ & Hk & _ & Hp1 & Hp2 & _ & ->).
  cbn [dealer_id reset_state players].
  set (d' := (dealer_id s + 1) `mod` Z.of_nat (length (players s))) in *.
  split; [apply seated_length|].
  intros i p Hp. exists (seat_after s d' k i p).
  rewrite seated_lookup, Hp by done. split; [done|].
  unfold seat_after, capped; cbn.
  repeat split; try done.
  - by intros ->; rewrite orb_true_r.
  - by intros ->; rewrite orb_true_r.
  - by intros -> ->.
  - repeat case_bool_decide; cbn; auto.
  - rewrite !bool_decide_eq_false_2 by lia. done.
  - rewrite !bool_decide_eq_false_2 by lia. done.
Qed.

Lemma reset_keeps_seats_witness :
  reset Deck.full short4 = (Ok empty_table, short4_next) /\
  Player.stack <$> players short4 = [5; 0; 0; 5] /\
  Player.stack <$> players short4_next = [5; 0; 0; 0].
Proof.
  assert (reset Deck.full short4 = (Ok empty_table, short4_next)) as Hrun
    by (vm_compute; reflexivity).
  split; [exact Hrun|]. split; [reflexivity|].
  destruct (reset_keeps_seats _ _ _ _ Hrun) as (_ & Hseat).
  destruct (Hseat 0%nat _ eq_refl) as (p0 & Hp0 & _ & _ & _ & _ & _ & _ & _ & H0).
  destruct H0 as [Hst _]; [cbn; lia..|].
  injection Hp0 as <-. reflexivity.
Defined.

Lemma reset_roles_coincide_witness :
  reset Deck.full table5 = (Ok empty_table, hand5) /\
  exists (i : nat) p',
    players hand5 !! i = Some p' /\
    Player.is_dealer p' = true /\ Player.is_small_blind p' = true /\
    Player.is_big_blind p' = true.
Proof.
  assert (reset Deck.full table5 = (Ok empty_table, hand5)) as Hrun
    by (vm_compute; reflexivity).
  split; [exact Hrun|exact (reset_roles_coincide _ _ _ _ Hrun)].
Defined.

(** ** Every outcome of [reset] *)

Lemma deal_loop_raises ps d e :
  fst (fst (deal_loop ps d)) = Raise e -> e = DeckExhausted.
Proof.
  revert d; induction ps as [|p ps IH]; intros d; cbn [deal_loop]; [done|].
  unfold Deck.draw_random. destruct (decide (2 <= length d)%nat).
  - specialize (IH (drop 2 d)).
    by destruct (deal_loop ps (drop 2 d)) as [[r ps''] d''].
  - cbn. congruence.
Qed.

(** X8. Whether [reset] returns or raises, it has cleared the community
    slots, set the phase to PREFLOP, recorded in [players_active] the seats
    that were active when it was called, and kept the number of seats, the
    blinds, [initial_stack], [max_steps] and [active_players]; on a table
    with a seat it has also advanced the dealer index by one modulo the
    seat count. *)
Theorem reset_every_outcome fresh s :
  let s' := snd (reset fresh s) in
  table s' = empty_table /\
  game_state s' = InPhase PREFLOP /\
  players_active s' = active_from 0 (players s) /\
  length (players s') = length (players s) /\
  small_blind s' = small_blind s /\ big_blind s' = big_blind s /\
  initial_stack s' = initial_stack s /\ max_steps s' = max_steps s /\
  active_players s' = active_players s /\
  (players s = [] -> dealer_id s' = dealer_id s) /\
  (players s <> [] ->
   dealer_id s' = (dealer_id s + 1) mod Z.of_nat (length (players s))).
Proof.
  cbv zeta. rewrite reset_eq.
  destruct (players s) as [|q qs] eqn:Hps.
  { cbn. rewrite Hps. repeat split; done. }
  rewrite <-Hps. assert (0 < length (players s))%nat as HN
    by (rewrite Hps; cbn; lia).
  rewrite py_mod_pos by done.
  set (d' := (dealer_id s + 1) `mod` Z.of_nat (length (players s))).
  destruct (fst (__get_next_active_player_id (d' + 1) s)) as [k|e] eqn:Hk.
  2:{ cbn. rewrite length_fmap. repeat split; (done || by rewrite Hps). }
  pose proof (deal_loop_length
    (alter (Player.set_is_big_blind true) (Z.to_nat k)
       (alter (Player.set_is_small_blind true) (Z.to_nat k)
          (Player.set_cards [] <$> players s))) (deck s)) as Hlen.
  rewrite !length_alter, length_fmap in Hlen.
  destruct (deal_loop _ _) as [[r0 ps] d]. cbn [fst snd] in Hlen.
  cbv zeta.
  destruct r0 as [[]|e]; [|cbn; repeat split; (done || by rewrite Hps)].
  destruct (py_get ps (d' + 1)) as [q1|e] eqn:Hq1;
    [|cbn; repeat split; (done || by rewrite Hps)].
  destruct (py_get _ (d' + 2)) as [q2|e] eqn:Hq2;
    cbn; rewrite ?length_fmap, !length_alter;
    repeat split; (done || by rewrite Hps).
Qed.

(** X9. [reset] raises nothing but [IndexError], [ZeroDivisionError] and
    [DeckExhausted]; it raises [ZeroDivisionError] exactly when the table
    has no seat or [active_players] is empty, and [DeckExhausted] only
    when the deck holds fewer than two cards per seat. *)
Theorem reset_exceptions fresh s :
  (forall e, fst (reset fresh s) = Raise e ->
     e = IndexError \/ e = ZeroDivisionError \/ e = DeckExhausted) /\
  (fst (reset fresh s) = Raise ZeroDivisionError <->
     players s = [] \/ active_players s = []) /\
  (fst (reset fresh s) = Raise DeckExhausted ->
     (length (deck s) < 2 * length (players s))%nat).
Proof.
  rewrite reset_eq.
  destruct (players s) as [|q qs] eqn:Hps.
  { cbn. split; [intros e [= <-]; auto|]. split; [split; auto|done]. }
  rewrite <-Hps. assert (0 < length (players s))%nat as HN
    by (rewrite Hps; cbn; lia).
  assert (players s <> []) as Hne by (by rewrite Hps).
  rewrite py_mod_pos by done.
  set (d' := (dealer_id s + 1) `mod` Z.of_nat (length (players s))).
  destruct (fst (__get_next_active_player_id (d' + 1) s)) as [k|e0] eqn:Hk.
  2:{ cbn [fst]. destruct (get_next_raises _ _ _ Hk) as [->|[-> Hnil]].
      - split; [intros e [= <-]; auto|]. split; [|done].
        split; [done|]. intros [?|Hnil]; [done|].
        rewrite get_next_eq, Hnil in Hk. discriminate.
      - split; [intros e [= <-]; auto|]. split; [|done]. split; auto. }
  assert (active_players s <> []) as Hact.
  { intros Hnil. rewrite get_next_eq, Hnil in Hk. discriminate. }
  destruct (decide (2 * length (players s) <= length (deck s))%nat)
    as [Hdeck|Hdeck].
  - rewrite deal_loop_enough by (rewrite !length_alter, length_fmap; done).
    cbv zeta.
    destruct (py_get _ (d' + 1)) as [q1|e1] eqn:Hq1.
    2:{ apply py_get_raises in Hq1 as ->. cbn [fst].
        split; [intros e [= <-]; auto|]. split; [|done].
        split; [done|]. by intros [?|?]. }
    destruct (py_get _ (d' + 2)) as [q2|e2] eqn:Hq2.
    2:{ apply py_get_raises in Hq2 as ->. cbn [fst].
        split; [intros e [= <-]; auto|]. split; [|done].
        split; [done|]. by intros [?|?]. }
    cbn [fst]. split; [done|]. split; [|done]. split; [done|]. by intros [?|?].
  - pose proof (deal_loop_short
      (alter (Player.set_is_big_blind true) (Z.to_nat k)
         (alter (Player.set_is_small_blind true) (Z.to_nat k)
            (Player.set_cards [] <$> players s))) (deck s)) as Hshort.
    rewrite !length_alter, length_fmap in Hshort.
    destruct (deal_loop _ _) as [[r ps] d]. cbn [fst] in Hshort.
    rewrite Hshort by lia. cbn [fst].
    split; [intros e [= <-]; auto|]. split; [|lia].
    split; [done|]. by intros [?|?].
Qed.

(** ** The hole cards of a hand *)

Lemma deal_cards_concat ps : forall d,
  concat (Player.cards <$> deal_cards ps d) = take (2 * length ps) d.
Proof.
  induction ps as [|p ps IH]; intros d; cbn [deal_cards fmap list_fmap concat length].
  - done.
  - rewrite IH. cbn [Player.cards Player.set_cards].
    rewrite take_take_drop. f_equal. lia.
Qed.

Lemma seated_cards s d' k :
  0 <= d' -> 0 <= k ->
  Player.cards <$> seated s d' k
  = Player.cards <$> deal_cards (players s) (deck s).
Proof.
  intros Hd Hk. apply list_eq; intros i.
  rewrite !list_lookup_fmap, seated_lookup, deal_cards_lookup by done.
  by destruct (players s !! i).
Qed.

(** X10. After a [reset] that returns, the hole cards of the seats, read
    in seat order, are the first [2N] cards of the deck as [reset] found
    it ([N] the number of seats): no card is dealt twice when that deck
    held none twice. *)
Theorem reset_hole_cards fresh s tbl s' :
  reset fresh s = (Ok tbl, s') ->
  hole_cards s' = take (2 * length (players s)) (deck s) /\
  length (hole_cards s') = (2 * length (players s))%nat /\
  (NoDup (deck s) -> NoDup (hole_cards s')).
Proof.
  intros Hreset.
  apply reset_Ok in Hreset
    as (k & p1 & p2 & _ & Hd & _ & _ & Hk & Hdeck & _ & _ & _ & ->).
  unfold hole_cards; cbn [players reset_state].
  rewrite seated_cards, deal_cards_concat by done.
  split; [done|]. split; [rewrite length_take; lia|].
  intros Hnd. by apply (sublist_NoDup _ (deck s)); [|apply sublist_take].
Qed.

Lemma reset_hole_cards_witness :
  reset Deck.full showdown5 = (Ok empty_table, snd (reset Deck.full showdown5)) /\
  hole_cards (snd (reset Deck.full showdown5)) = seq 5 10.
Proof.
  assert (reset Deck.full showdown5
          = (Ok empty_table, snd (reset Deck.full showdown5))) as Hrun
    by (vm_compute; reflexivity).
  split; [exact Hrun|].
  destruct (reset_hole_cards _ _ _ _ Hrun) as (-> & _). reflexivity.
Defined.

(** ** [step] on every object *)




(** X12. On an object whose [game_state] is the phase RIVER or a member
    of [StateMachine] (as it is before the first [reset]), [step] draws
    nothing and leaves the object unchanged, returning the table. *)
Theorem step_outside_hand action s :
  game_state s = InPhase RIVER \/ (exists m, game_state s = InMachine m) ->
  step action s = (Ok (table s, 0, false, tt), s).
Proof.
  intros [Hgs|[m Hgs]]; unfold step, bind at 1, gets at 1; by rewrite Hgs.
Qed.

Lemma step_outside_hand_witness :
  game_state blank = InMachine START_GAME /\
  step 1 blank = (Ok (empty_table, 0, false, tt), blank).
Proof.
  split; [reflexivity|].
  apply (step_outside_hand 1 blank). right. by exists START_GAME.
Defined.

Lemma steps_showdown actions : forall s,
  game_state s = InPhase SHOWDOWN ->
  snd (steps actions s) = s /\
  Forall (fun r => r = Ok (table s, 0, false, tt)) (fst (steps actions s)).
Proof.
  induction actions as [|a actions IH]; intros s Hgs; cbn [steps].
  - split; [done|constructor].
  - rewrite step_showdown by done.
    destruct (IH s Hgs) as [Hs Hall].
    destruct (steps actions s) as [rs s2]; cbn in *.
    split; [done|by constructor].
Qed.

(** X13. After a [reset] that returns (with a shuffled full deck), every
    call of [step] returns, however many are made; from the third call on
    the object no longer changes: the phase is SHOWDOWN, five cards have
    left the deck, and every further call returns the same table. *)
Theorem steps_after_reset fresh s tbl s0 actions :
  reset fresh s = (Ok tbl, s0) -> Deck.shuffled fresh ->
  Forall (fun r => is_ok r = true) (fst (steps actions s0)) /\
  ((3 <= length actions)%nat ->
   let s3 := snd (steps (take 3 actions) s0) in
   snd (steps actions s0) = s3 /\
   game_state s3 = InPhase SHOWDOWN /\
   deck s3 = drop 5 fresh /\ length (deck s3) = 47%nat /\
   Forall (fun r => r = Ok (table s3, 0, false, tt))
          (drop 3 (fst (steps actions s0)))).
Proof.
  intros Hreset Hfresh.
  assert (length fresh = 52%nat) as Hlen by exact (Permutation_length Hfresh).
  assert (deck s0 = fresh) as Hdeck.
  { apply reset_Ok in Hreset as (? & ? & ? & _ & _ & _ & _ & _ & _ & _ & _ & _ & ->).
    done. }
  destruct actions as [|a1 [|a2 [|a3 rest]]].
  - split; [constructor|cbn; lia].
  - destruct (hand_advances fresh s tbl s0 a1 0 0 Hreset) as (H1 & _); [lia|].
    cbn [steps]. rewrite H1. split; [by repeat constructor|cbn; lia].
  - destruct (hand_advances fresh s tbl s0 a1 a2 0 Hreset) as (H1 & H2 & _); [lia|].
    cbn [steps]. rewrite H1, H2. split; [by repeat constructor|cbn; lia].
  - destruct (hand_advances fresh s tbl s0 a1 a2 a3 Hreset)
      as (H1 & H2 & H3 & _); [lia|].
    cbv zeta. cbn [take]. rewrite take_0. cbn [steps].
    rewrite H1, H2, H3. cbn [snd].
    set (s3 := advanced 1 fill_river SHOWDOWN _) in *.
    assert (deck s3 = drop 5 fresh) as Hd3
      by (cbn; by rewrite Hdeck, !drop_drop).
    destruct (steps_showdown rest s3 eq_refl) as [Hs Hall].
    destruct (steps rest s3) as [rs s4]; cbn [fst snd drop] in *. subst s4.
    split.
    + do 3 (constructor; [done|]).
      eapply Forall_impl; [exact Hall|]. by intros r ->.
    + intros _. split; [done|]. split; [done|].
      split; [exact Hd3|]. split; [|exact Hall].
      rewrite Hd3, length_drop; lia.
Qed.

Lemma steps_after_reset_witness :
  reset Deck.full table5 = (Ok empty_table, hand5) /\
  Forall (fun r => is_ok r = true) (fst (steps [0; 1; 2; 7; 0] hand5)) /\
  game_state (snd (steps [0; 1; 2; 7; 0] hand5)) = InPhase SHOWDOWN.
Proof.
  assert (reset Deck.full table5 = (Ok empty_table, hand5)) as Hrun
    by (vm_compute; reflexivity).
  split; [exact Hrun|].
  destruct (steps_after_reset _ _ _ _ [0; 1; 2; 7; 0] Hrun
              (Permutation_refl Deck.full)) as (Hall & Hlong).
  split; [exact Hall|].
  destruct Hlong as (-> & Hgs & _); [cbn; lia|exact Hgs].
Defined.

(** ** [random_state] *)

Lemma random_state_enough s :
  (5 <= length (deck s))%nat ->
  random_state s =
  (Ok tt,
   set_table (mkTable (Some (take 3 (deck s))) (Some (take 1 (drop 3 (deck s))))
                      (Some (take 1 (drop 4 (deck s)))))
     (set_deck (drop 5 (deck s)) s)).
Proof.
  intros Hlen. unfold random_state, bind, draw, Deck.draw_random, modify.
  rewrite decide_True by lia. cbn.
  rewrite decide_True by (rewrite length_drop; lia). cbn.
  rewrite decide_True by (rewrite !length_drop; lia). cbn.
  rewrite !drop_drop. by destruct s.
Qed.

(** X14. [random_state] fills the three community slots with the first
    five cards of the deck and returns exactly when the deck holds five
    cards; whatever happens it changes neither the phase nor the seats nor
    [stake]; it raises nothing but [DeckExhausted], and when it raises with
    three cards or more in the deck the flop slot has been overwritten
    all the same. *)
Theorem random_state_spec s :
  let r := fst (random_state s) in
  let s' := snd (random_state s) in
  game_state s' = game_state s /\ players s' = players s /\
  stake s' = stake s /\ dealer_id s' = dealer_id s /\
  (is_ok r = true <-> (5 <= length (deck s))%nat) /\
  (forall e, r = Raise e -> e = DeckExhausted) /\
  ((5 <= length (deck s))%nat ->
   table s' = mkTable (Some (take 3 (deck s))) (Some (take 1 (drop 3 (deck s))))
                      (Some (take 1 (drop 4 (deck s)))) /\
   deck s' = drop 5 (deck s)) /\
  ((3 <= length (deck s) < 5)%nat ->
   slot_flop (table s') = Some (take 3 (deck s))).
Proof.
  cbv zeta. destruct (decide (5 <= length (deck s))%nat) as [Hlen|Hlen].
  { rewrite random_state_enough by done. cbn.
    split_and!; try done; try lia. }
  unfold random_state, bind, draw, Deck.draw_random, modify.
  destruct (decide (3 <= length (deck s))%nat) as [H3|H3]; cbn.
  2:{ split_and!; try done; try lia; intros; congruence. }
  destruct (decide (1 <= length (drop 3 (deck s)))%nat) as [H4|H4]; cbn.
  2:{ split_and!; try done; try lia; intros; congruence. }
  rewrite length_drop in H4.
  rewrite decide_False by (rewrite !length_drop; lia). cbn.
  split_and!; try done; try lia; intros; congruence.
Qed.

(** X15. After a [reset] that returns (with a shuffled full deck),
    [random_state] leaves the table and the deck that three calls of
    [step] leave, but the phase is still PREFLOP: the next call of [step]
    replaces the flop with the next three cards of the deck. *)
Theorem random_state_after_reset fresh s tbl s0 :
  reset fresh s = (Ok tbl, s0) -> Deck.shuffled fresh ->
  exists s1,
    random_state s0 = (Ok tt, s1) /\
    table s1 = table (snd (steps [0; 0; 0] s0)) /\
    deck s1 = deck (snd (steps [0; 0; 0] s0)) /\
    game_state s1 = InPhase PREFLOP /\
    slot_flop (table s1) = Some (take 3 fresh) /\
    slot_flop (table (snd (step 0 s1))) = Some (take 3 (drop 5 fresh)).
Proof.
  intros Hreset Hfresh.
  assert (length fresh = 52%nat) as Hlen by exact (Permutation_length Hfresh).
  destruct (hand_advances fresh s tbl s0 0 0 0 Hreset)
    as (H1 & H2 & H3 & _ & _ & Ht3); [lia|].
  apply reset_Ok in Hreset
    as (? & ? & ? & _ & _ & _ & _ & _ & _ & _ & _ & _ & Hs0).
  assert (deck s0 = fresh) as Hdeck by (by rewrite Hs0).
  assert (game_state s0 = InPhase PREFLOP) as Hgs by (by rewrite Hs0).
  eexists. split; [apply random_state_enough; rewrite Hdeck; lia|].
  cbn [steps]. rewrite H1, H2, H3. cbn [snd]. rewrite Ht3.
  cbn [table set_table deck set_deck game_state]. rewrite Hdeck.
  split; [done|]. split; [by cbn; rewrite Hdeck, !drop_drop|].
  split; [done|]. split; [done|].
  rewrite step_preflop; [done|done|]. cbn. rewrite length_drop. lia.
Qed.

Lemma random_state_after_reset_witness :
  reset Deck.full table5 = (Ok empty_table, hand5) /\
  table (snd (random_state hand5)) = table (snd (steps [0; 0; 0] hand5)) /\
  game_state (snd (random_state hand5)) = InPhase PREFLOP.
Proof.
  assert (reset Deck.full table5 = (Ok empty_table, hand5)) as Hrun
    by (vm_compute; reflexivity).
  split; [exact Hrun|].
  destruct (random_state_after_reset _ _ _ _ Hrun (Permutation_refl Deck.full))
    as (s1 & -> & Ht & _ & Hgs & _).
  split; [exact Ht|exact Hgs].
Defined.

(** ** [_check_action] and [Player.reset] *)

(** X16. [_check_action] returns exactly on the values of the members of
    [Action] and raises [ValueError] on every other integer; it never
    changes the object. *)
Theorem check_action_spec action s :
  snd (_check_action action s) = s /\
  (fst (_check_action action s) = Ok tt <->
   exists a : Action, Action_value a = action) /\
  (fst (_check_action action s) = Raise ValueError <->
   forall a : Action, Action_value a <> action).
Proof.
  unfold _check_action, in_action_space.
  case_bool_decide as Hin; cbn.
  - split; [done|]. split.
    + split; [intros _|done].
      assert (action = 0 \/ action = 1 \/ action = 2) as [->|[->| ->]] by lia;
        [by exists FOLD|by exists CALL|by exists RAISE].
    + split; [done|]. intros Hall.
      assert (action = 0 \/ action = 1 \/ action = 2) as [->|[->| ->]] by lia;
        [destruct (Hall FOLD)|destruct (Hall CALL)|destruct (Hall RAISE)]; done.
  - split; [done|]. split.
    + split; [done|]. intros [[] <-]; cbn in Hin; lia.
    + split; [|done]. intros _ [] <-; cbn in Hin; lia.
Qed.

(** X17. [Player.reset] is idempotent and keeps nothing of a seat but
    its id and its stack: two seats are reset to the same seat exactly
    when they agree on those two. *)
Theorem Player_reset_forgets p q :
  Player.reset (Player.reset p) = Player.reset p /\
  (Player.reset p = Player.reset q <->
   Player.id p = Player.id q /\ Player.stack p = Player.stack q).
Proof.
  split; [done|]. unfold Player.reset. split.
  - by intros [= -> ->].
  - by intros [-> ->].
Qed.

(** ** The constructor *)

Lemma active_from_all ps : forall idx,
  Forall (fun p => Player.is_active p = true) ps ->
  active_from idx ps = seqZ idx (Z.of_nat (length ps)).
Proof.
  induction ps as [|p ps IH]; intros idx Hall; [done|].
  apply Forall_cons in Hall as [Hp Hall].
  cbn [active_from length]. rewrite Hp, IH by done.
  rewrite (seqZ_cons idx) by lia. do 2 f_equal; lia.
Qed.

Lemma new_players_lookup (n st : Z) (i : nat) :
  ((fun player_id => Player.init player_id st) <$> seqZ 0 n) !! i =
  if decide (Z.of_nat i < n) then Some (Player.init (Z.of_nat i) st) else None.
Proof.
  rewrite list_lookup_fmap. case_decide.
  - by rewrite lookup_seqZ_lt.
  - by rewrite lookup_seqZ_ge by lia.
Qed.

Lemma random_choice_seqZ pick (n : nat) :
  (0 < n)%nat ->
  random_choice pick (seqZ 0 (Z.of_nat n)) = Ok (Z.of_nat (pick mod n)).
Proof.
  intros Hn. unfold random_choice.
  destruct (seqZ 0 (Z.of_nat n)) as [|x l] eqn:Hl.
  { apply (f_equal length) in Hl. rewrite length_seqZ in Hl. cbn in Hl. lia. }
  rewrite <-Hl, length_seqZ, Nat2Z.id.
  rewrite lookup_seqZ_lt; [done|].
  pose proof (Nat.mod_upper_bound pick n). lia.
Qed.

(** With the dealer flag on seat [d] alone, the scan returns [d] when it
    starts at or before [d] and does not return when it starts after. *)
Lemma get_next_single c s (d : nat) :
  active_players s <> [] -> (d < length (players s))%nat ->
  (forall (i : nat) p, players s !! i = Some p ->
                       (Player.is_dealer p = true <-> i = d)) ->
  let start := (c + 1) mod Z.of_nat (length (active_players s)) in
  (start <= Z.of_nat d ->
   fst (__get_next_active_player_id c s) = Ok (Z.of_nat d)) /\
  (Z.of_nat d < start ->
   is_ok (fst (__get_next_active_player_id c s)) = false).
Proof.
  intros Hact Hd Honly start.
  destruct (get_next_spec c s Hact) as (_ & Hiff & _).
  assert (0 <= start).
  { apply Z.mod_pos_bound. destruct (active_players s); [done|cbn; lia]. }
  split.
  - intros Hstart. apply Hiff. fold start. split; [done|].
    rewrite Nat2Z.id.
    destruct (lookup_lt_is_Some_2 (players s) d Hd) as [p Hp].
    split; [exists p; split; [done|by apply (Honly d)]|].
    intros j q Hj Hq. destruct (Player.is_dealer q) eqn:Hdq; [|done].
    apply (Honly _ _ Hq) in Hdq. lia.
  - intros Hstart.
    destruct (fst (__get_next_active_player_id c s)) as [k|] eqn:Hk; [|done].
    destruct (proj1 (Hiff k) eq_refl) as (Hk' & (p & Hp & Hdl) & _).
    fold start in Hk'. apply (Honly _ _ Hp) in Hdl. lia.
Qed.

Lemma rotation_arith (d N : Z) :
  0 <= d < N ->
  ((d + 2) mod N <= d /\ ((d + 1) mod N + 2) mod N <= d /\
   (d + 1) mod N + 2 < N) <->
  (d = N - 1 /\ 3 <= N).
Proof.
  intros Hd. destruct (decide (d = N - 1)) as [->|Hne].
  - replace (N - 1 + 1) with N by lia. rewrite Z_mod_same_full.
    split.
    + intros (_ & _ & ?). lia.
    + intros [_ HN]. rewrite (Z.mod_small (0 + 2)) by lia.
      replace (N - 1 + 2) with (1 + 1 * N) by lia.
      rewrite Z_mod_plus_full, Z.mod_small by lia. lia.
  - split; [|lia]. intros (H1 & _ & H3).
    rewrite (Z.mod_small (d + 1)) in H3 by lia.
    rewrite Z.mod_small in H1 by lia. lia.
Qed.

(** The constructor, up to its call of [reset]: [reset] runs on the new
    seats with the dealer and small-blind flags on the drawn seat [d],
    provided the scan of [_set_small_blind] found that seat. *)
Lemma init_eq n st sb ms pick deck0 fresh :
  let N := Z.to_nat n in
  let d := (pick mod N)%nat in
  let ps0 := (fun player_id => Player.init player_id st) <$> seqZ 0 n in
  let s2 :=
    {| initial_stack := st;
       players := alter (Player.set_is_small_blind true) d
                    (alter (Player.set_is_dealer true) d ps0);
       small_blind := sb; big_blind := sb * 2;
       active_players := seqZ 0 n; table := empty_table;
       game_state := InMachine START_GAME; stake := None;
       max_steps := ms; deck := deck0; dealer_id := Z.of_nat d;
       players_active := seqZ 0 n |} in
  init n st sb ms pick deck0 fresh =
  if decide ((0 < N)%nat /\ (Z.of_nat d + 2) mod Z.of_nat N <= Z.of_nat d)
  then match reset fresh s2 with
       | (Ok _, s) => Ok s
       | (Raise e, _) => Raise e
       end
  else Raise IndexError.
Proof.
  intros N d ps0 s2. unfold init.
  change (map (fun player_id => Player.init player_id st) (seqZ 0 n)) with ps0.
  assert (length ps0 = N) as Hlen by (unfold ps0; by rewrite length_fmap, length_seqZ).
  assert (Forall (fun p => Player.is_active p = true) ps0) as Hall.
  { apply Forall_forall. intros p Hp. unfold ps0 in Hp.
    apply list_elem_of_fmap in Hp as (i & -> & _). done. }
  rewrite active_from_all, Hlen by done.
  destruct (decide (0 < N)%nat) as [HNpos|HN0]; cycle 1.
  { assert (N = 0%nat) as -> by lia. rewrite seqZ_nil by lia. cbn.
    rewrite decide_False; [done|]. intros [? _]; lia. }
  assert (Z.of_nat N = n) as HnN by (subst N; lia).
  rewrite random_choice_seqZ by done. fold d.
  assert (d < N)%nat as Hd by (apply Nat.mod_upper_bound; lia).
  unfold bind at 1. rewrite update_player_eq. cbn [players].
  rewrite py_alter_in_range by lia. rewrite Nat2Z.id.
  unfold bind at 1, modify at 1. cbn [players set_players set_players_active].
  set (ps1 := alter (Player.set_is_dealer true) d ps0).
  assert (length ps1 = N) as Hlen1 by (unfold ps1; by rewrite length_alter).
  assert (active_from 0 ps1 = seqZ 0 n) as Hact1.
  { rewrite active_from_all, Hlen1, HnN; [done|].
    apply Forall_forall. intros p Hp.
    apply list_elem_of_lookup in Hp as [i Hp]. unfold ps1 in Hp.
    rewrite lookup_alter_fmap in Hp.
    destruct (ps0 !! i) as [q|] eqn:Hq; [|done]. injection Hp as <-.
    assert (Player.is_active q = true) as Hqa.
    { eapply Forall_forall in Hall; [done|]. by eapply list_elem_of_lookup_2. }
    by case_decide. }
  rewrite Hact1, HnN.
  set (s1 := {| initial_stack := st; players := ps1; small_blind := sb;
                big_blind := sb * 2; active_players := seqZ 0 n;
                table := empty_table; game_state := InMachine START_GAME;
                stake := None; max_steps := ms; deck := deck0;
                dealer_id := Z.of_nat d; players_active := seqZ 0 n |}).
  change (set_players_active (seqZ 0 n) (set_players ps1 _)) with s1.
  assert (active_players s1 <> []) as Hne.
  { cbn. intros Hnil. apply (f_equal length) in Hnil.
    rewrite length_seqZ in Hnil. cbn in Hnil. lia. }
  destruct (get_next_single (Z.of_nat d + 1) s1 d Hne) as [Hfound Hmiss].
  { cbn [players s1]. lia. }
  { intros i p. cbn. unfold ps1, ps0.
    rewrite lookup_alter_fmap, new_players_lookup.
    destruct (decide (Z.of_nat i < n)); cbn; [|done]. intros [= <-].
    destruct (decide (d = i)) as [->|Hne']; cbn; [done|].
    split; [done|]. by intros ->. }
  cbn [active_players s1] in Hfound, Hmiss.
  rewrite length_seqZ, <-HnN, Nat2Z.id in Hfound, Hmiss.
  replace (Z.of_nat d + 1 + 1) with (Z.of_nat d + 2) in Hfound, Hmiss by lia.
  unfold bind at 1. rewrite set_small_blind_eq. cbn [dealer_id s1].
  destruct (decide ((Z.of_nat d + 2) mod Z.of_nat N <= Z.of_nat d)) as [Hle|Hgt].
  - rewrite decide_True by (split; [lia|rewrite <-HnN; exact Hle]).
    rewrite (Hfound Hle). rewrite update_player_eq. cbn [players s1].
    rewrite py_alter_in_range by lia.
    rewrite Nat2Z.id. change (set_players _ s1) with s2.
    by destruct (reset fresh s2) as [[tbl|e] s3].
  - rewrite decide_False by (intros [_ Hx]; rewrite <-HnN in Hx; done).
    specialize (Hmiss ltac:(lia)).
    destruct (get_next_spec (Z.of_nat d + 1) s1 Hne) as (_ & _ & _ & Hraise).
    destruct (fst (__get_next_active_player_id _ s1)) as [|e]; [done|].
    by rewrite (Hraise e eq_refl).
Qed.

(** X18. The constructor returns exactly when the table has at least
    three seats, [random.choice] has drawn the last seat as dealer, and the
    new deck holds two cards for every seat: for any other draw it raises. *)
Theorem init_returns_iff n st sb ms pick deck0 fresh :
  is_ok (init n st sb ms pick deck0 fresh) = true <->
  3 <= n /\ (pick mod Z.to_nat n)%nat = (Z.to_nat n - 1)%nat /\
  (2 * Z.to_nat n <= length deck0)%nat.
Proof.
  rewrite init_eq. cbv zeta.
  set (N := Z.to_nat n). set (d := (pick mod N)%nat).
  match goal with |- context [reset fresh ?x] => set (s2 := x) end.
  pose proof (reset_returns_iff fresh s2) as Hret. cbv zeta in Hret.
  cbn [players active_players deck dealer_id s2] in Hret.
  rewrite !length_alter, length_fmap, !length_seqZ in Hret. fold N in Hret.
  assert (is_ok (match reset fresh s2 with
                 | (Ok _, s) => Ok s | (Raise e, _) => Raise e end)
          = is_ok (fst (reset fresh s2))) as Hsame
    by (by destruct (reset fresh s2) as [[?|?] ?]).
  split.
  - case_decide as Hc; [|done]. destruct Hc as [HN H1].
    rewrite Hsame, Hret.
    intros (_ & _ & (k & p & Hk & Hp & Hdl) & Hdeck & H3).
    assert (d < N)%nat as Hd by (apply Nat.mod_upper_bound; lia).
    rewrite !lookup_alter_fmap, new_players_lookup in Hp.
    destruct (decide (Z.of_nat k < n)); cbn in Hp; [|done].
    injection Hp as <-.
    assert (k = d) as ->
      by (destruct (decide (d = k)); [done|cbn in Hdl; discriminate]).
    destruct (rotation_arith (Z.of_nat d) (Z.of_nat N)) as [Har _]; [lia|].
    destruct Har as [? ?]; [by split_and!|]. lia.
  - intros (Hn & Hpick & Hdeck).
    assert (Z.of_nat N = n) as HnN by (subst N; lia).
    assert (d = (N - 1)%nat) as Hd by done.
    destruct (rotation_arith (Z.of_nat d) (Z.of_nat N)) as [_ Har]; [lia|].
    destruct Har as (H1 & H2 & H3); [lia|].
    rewrite decide_True by (split; [lia|done]).
    rewrite Hsame, Hret.
    split; [lia|]. split.
    { intros Hnil. apply (f_equal length) in Hnil.
      rewrite length_seqZ in Hnil. cbn in Hnil. lia. }
    split; [|by split].
    exists d, (Player.set_is_small_blind true
                 (Player.set_is_dealer true (Player.init (Z.of_nat d) st))).
    split; [done|].
    rewrite !lookup_alter_fmap, new_players_lookup.
    rewrite !decide_True by (done || lia). done.
Qed.

(** X19. A table the constructor has returned has its dealer index on
    seat 0 while the dealer, small-blind and big-blind flags are on the
    last seat and there alone; the seats carry the ids [0 .. n-1], are all
    active and hold the first [2n] cards of the new deck, two each; seats
    1 and 2 have posted the blinds, so [stake] is
    [min(stack, small_blind) + min(stack, 2 * small_blind)] and only these
    two seats can have lost their stack; the phase is PREFLOP and the
    community slots are empty. *)
Theorem init_state n st sb ms pick deck0 fresh s :
  init n st sb ms pick deck0 fresh = Ok s ->
  dealer_id s = 0 /\ length (players s) = Z.to_nat n /\
  small_blind s = sb /\ big_blind s = sb * 2 /\
  stake s = Some (Z.min st sb + Z.min st (sb * 2)) /\
  game_state s = InPhase PREFLOP /\ table s = empty_table /\
  deck s = fresh /\ active_players s = seqZ 0 n /\
  forall (i : nat) p,
    players s !! i = Some p ->
    Player.id p = Z.of_nat i /\ Player.is_active p = true /\
    Player.cards p = take 2 (drop (2 * i) deck0) /\
    (Player.is_dealer p = true <-> i = (Z.to_nat n - 1)%nat) /\
    (Player.is_small_blind p = true <-> i = (Z.to_nat n - 1)%nat) /\
    (Player.is_big_blind p = true <-> i = (Z.to_nat n - 1)%nat) /\
    Player.stack p =
      (if bool_decide ((i = 1%nat /\ st < sb) \/ (i = 2%nat /\ st < sb * 2))
       then 0 else st) /\
    Player.is_all_in p =
      bool_decide ((i = 1%nat /\ st < sb) \/ (i = 2%nat /\ st < sb * 2)).
Proof.
  intros Hinit.
  assert (is_ok (init n st sb ms pick deck0 fresh) = true) as Hok
    by (by rewrite Hinit).
  apply init_returns_iff in Hok as (Hn & Hpick & Hdeck).
  rewrite init_eq in Hinit. cbv zeta in Hinit.
  set (N := Z.to_nat n) in *. set (d := (pick mod N)%nat) in *.
  assert (Z.of_nat N = n) as HnN by (subst N; lia).
  assert (d = (N - 1)%nat) as Hd by done.
  destruct (rotation_arith (Z.of_nat d) (Z.of_nat N)) as [_ Har]; [lia|].
  destruct Har as (H1 & H2 & H3); [lia|].
  rewrite decide_True in Hinit by (split; [lia|done]).
  match type of Hinit with context [reset fresh ?x] => set (s2 := x) in * end.
  destruct (reset fresh s2) as [[tbl|e] s3] eqn:Hr; [|done].
  injection Hinit as ->.
  assert (length (players s2) = N) as Hlen2
    by (cbn; by rewrite !length_alter, length_fmap, length_seqZ).
  assert (forall (i : nat) p, players s2 !! i = Some p ->
            Player.id p = Z.of_nat i /\ Player.stack p = st /\
            Player.is_all_in p = false /\
            Player.is_dealer p = bool_decide (i = d) /\
            Player.is_small_blind p = bool_decide (i = d) /\
            Player.is_big_blind p = false) as Hseat2.
  { intros i p. cbn [players s2].
    rewrite !lookup_alter_fmap, new_players_lookup.
    destruct (decide (Z.of_nat i < n)); cbn; [|done]. intros [= <-].
    destruct (decide (d = i)) as [->|Hne]; cbn.
    - by rewrite bool_decide_eq_true_2.
    - by rewrite bool_decide_eq_false_2 by done. }
  assert (active_players s2 <> []) as Hact2.
  { cbn. intros Hnil. apply (f_equal length) in Hnil.
    rewrite length_seqZ in Hnil. cbn in Hnil. lia. }
  apply reset_Ok in Hr
    as (k & p1 & p2 & HN & Hd0 & Hd2 & Hk & Hk0 & _ & Hp1 & Hp2 & _ & ->).
  rewrite Hlen2 in *. cbn [dealer_id s2] in *.
  replace ((Z.of_nat d + 1) mod Z.of_nat N) with 0 in *
    by (rewrite Hd; replace (Z.of_nat (N - 1) + 1) with (Z.of_nat N) by lia;
        by rewrite Z_mod_same_full).
  assert (k = Z.of_nat d) as ->.
  { destruct (get_next_single (0 + 1) s2 d Hact2) as [Hfound _].
    - lia.
    - intros i p Hp. destruct (Hseat2 i p Hp) as (_ & _ & _ & -> & _).
      by rewrite bool_decide_eq_true.
    - cbn [active_players s2] in Hfound.
      rewrite length_seqZ, Z.mod_small in Hfound by lia.
      rewrite Hfound in Hk by lia. by injection Hk as <-. }
  destruct (Hseat2 _ _ Hp1) as (_ & Hst1 & _).
  destruct (Hseat2 _ _ Hp2) as (_ & Hst2 & _).
  cbn [dealer_id players stake game_state table deck active_players
       small_blind big_blind reset_state s2].
  split_and!; try done.
  { by rewrite seated_length. }
  { by rewrite !blind_due_min, Hst1, Hst2. }
  intros i p. rewrite seated_lookup by lia.
  destruct (players s2 !! i) as [q|] eqn:Hq; [|done]. cbn. intros [= <-].
  destruct (Hseat2 _ _ Hq) as (Hid & Hst & Hai & Hdl & Hsb & Hbb).
  unfold seat_after, capped. cbn [Player.id Player.is_active Player.cards
    Player.is_dealer Player.is_small_blind Player.is_big_blind Player.stack
    Player.is_all_in small_blind big_blind deck s2].
  rewrite Hid, Hst, Hai, Hdl, Hsb, Hbb, !orb_false_r.
  assert (bool_decide (Z.of_nat i = 0 + 1 /\ st < sb)
          || bool_decide (Z.of_nat i = 0 + 2 /\ st < sb * 2)
          = bool_decide ((i = 1%nat /\ st < sb) \/ (i = 2%nat /\ st < sb * 2)))
    as ->.
  { apply eq_true_iff_eq. rewrite orb_true_iff, !bool_decide_eq_true. lia. }
  rewrite orb_true_iff, !bool_decide_eq_true.
  split_and!; try done; lia.
Qed.

Lemma init_state_witness :
  init 5 1000 10 1000 4 Deck.full Deck.full = Ok table5 /\
  dealer_id table5 = 0 /\ stake table5 = Some 30.
Proof.
  assert (init 5 1000 10 1000 4 Deck.full Deck.full = Ok table5) as Hrun
    by (vm_compute; reflexivity).
  split; [exact Hrun|].
  destruct (init_state _ _ _ _ _ _ _ _ Hrun) as (Hd & _ & _ & _ & Hst & _).
  split; [exact Hd|exact Hst].
Defined.

(** ** Runs of [reset] on a table with the dealer flag on its last seat *)

Lemma fmap_flag_dealer (f : Player.t -> Player.t) (ps : list Player.t) :
  (forall p, Player.is_dealer (f p) = Player.is_dealer p) ->
  Player.is_dealer <$> (f <$> ps) = Player.is_dealer <$> ps.
Proof.
  intros Hf. rewrite <-list_fmap_compose.
  apply list_fmap_ext. intros i p _. apply Hf.
Qed.

Lemma go_all_in_dealer blind p :
  Player.is_dealer (go_all_in blind p) = Player.is_dealer p.
Proof. unfold go_all_in. by case_decide. Qed.

Lemma deal_loop_dealer ps : forall d,
  Player.is_dealer <$> snd (fst (deal_loop ps d)) = Player.is_dealer <$> ps.
Proof.
  induction ps as [|p ps IH]; intros d; cbn [deal_loop]; [done|].
  unfold Deck.draw_random. destruct (decide (2 <= length d)%nat); [|done].
  specialize (IH (drop 2 d)).
  destruct (deal_loop ps (drop 2 d)) as [[r ps''] d'']; cbn in *.
  by rewrite IH.
Qed.

(** No call of [reset] changes a dealer flag, whether it returns or not. *)
Lemma reset_dealer_flags fresh s :
  Player.is_dealer <$> players (snd (reset fresh s))
  = Player.is_dealer <$> players s.
Proof.
  rewrite reset_eq.
  destruct (py_mod _ _) as [d'|]; [|by cbn; apply fmap_flag_dealer].
  destruct (fst (__get_next_active_player_id (d' + 1) s)) as [k|];
    [|by cbn; apply fmap_flag_dealer].
  pose proof (deal_loop_dealer
    (alter (Player.set_is_big_blind true) (Z.to_nat k)
       (alter (Player.set_is_small_blind true) (Z.to_nat k)
          (Player.set_cards [] <$> players s))) (deck s)) as Hdeal.
  rewrite !alter_flag_dealer, fmap_flag_dealer in Hdeal by done.
  destruct (deal_loop _ _) as [[r0 ps] d]. cbn [fst snd] in Hdeal.
  cbv zeta. destruct r0 as [[]|]; [|done].
  destruct (py_get ps (d' + 1)) as [q1|]; [|done].
  destruct (py_get _ (d' + 2)) as [q2|]; cbn;
    by rewrite ?fmap_flag_dealer, !alter_flag_dealer
      by (done || apply go_all_in_dealer).
Qed.

Lemma resets_lookup_S fresh freshes s (j : nat) :
  fst (resets (fresh :: freshes) s) !! S j
  = fst (resets freshes (snd (reset fresh s))) !! j.
Proof.
  cbn [resets]. destruct (reset fresh s) as [r s1]. cbn [snd].
  by destruct (resets freshes s1) as [rs s2].
Qed.

(** X20. On a table of at most 26 seats whose last seat carries the dealer
    flag, whose [active_players] lists as many entries as there are seats
    and whose deck can serve every seat (the tables the constructor
    returns are such), in any run of consecutive calls of [reset] with
    shuffled full decks the call number [j] (counting from 0) returns
    exactly when the dealer index it rotates to,
    [(dealer_id + 1 + j) % N], leaves two seats after it. *)
Theorem resets_outcomes freshes : forall s (j : nat) r,
  let N := length (players s) in
  (0 < N <= 26)%nat -> length (active_players s) = N ->
  (exists p, players s !! (N - 1)%nat = Some p /\ Player.is_dealer p = true) ->
  (2 * N <= length (deck s))%nat ->
  Forall Deck.shuffled freshes ->
  fst (resets freshes s) !! j = Some r ->
  (is_ok r = true <->
   (dealer_id s + 1 + Z.of_nat j) mod Z.of_nat N + 2 < Z.of_nat N).
Proof.
  induction freshes as [|fresh freshes IH];
    intros s j r N HN Hact Hflag Hdeck Hfr Hr; [done|].
  apply Forall_cons in Hfr as [Hfresh Hfr].
  assert (active_players s <> []) as Hne
    by (intros Hnil; rewrite Hnil in Hact; cbn in Hact; lia).
  destruct j as [|j].
  - assert (r = fst (reset fresh s)) as ->.
    { cbn [resets] in Hr. destruct (reset fresh s) as [r0 s1].
      destruct (resets freshes s1) as [rs s2]. cbn in Hr |- *. congruence. }
    rewrite Z.add_0_r, reset_returns_iff. fold N. rewrite Hact.
    set (d' := (dealer_id s + 1) `mod` Z.of_nat N).
    assert (0 <= (d' + 2) mod Z.of_nat N < Z.of_nat N)
      by (apply Z.mod_pos_bound; lia).
    split; [by intros (_ & _ & _ & _ & ?)|]. intros Hd2.
    split; [lia|]. split; [done|]. split; [|by split].
    destruct Hflag as (p & Hp & Hdl). exists (N - 1)%nat, p.
    split; [lia|done].
  - rewrite resets_lookup_S in Hr.
    destruct (reset fresh s) as [r0 s1] eqn:Hreset. cbn [snd] in Hr.
    destruct (reset_frame _ _ _ _ Hreset ltac:(lia)) as (Hlen & Ha & Hd).
    fold N in Hlen, Hd.
    pose proof (reset_dealer_flags fresh s) as Hfl.
    rewrite Hreset in Hfl; cbn [snd] in Hfl.
    specialize (IH s1 j r). cbv zeta in IH. rewrite Hlen, Hd in IH.
    rewrite rotation_step in IH. apply IH; try done.
    + by rewrite Ha.
    + destruct Hflag as (p & Hp & Hdl).
      assert ((Player.is_dealer <$> players s1) !! (N - 1)%nat = Some true)
        as Hlook by (by rewrite Hfl, list_lookup_fmap, Hp; cbn; rewrite Hdl).
      rewrite list_lookup_fmap in Hlook.
      destruct (players s1 !! (N - 1)%nat) as [p'|]; [|done].
      exists p'. split; [done|]. by injection Hlook.
    + destruct (reset_frame_deck _ _ _ _ Hreset ltac:(lia) Hdeck) as [-> | ->];
        [done|].
      rewrite (Permutation_length Hfresh). cbn. lia.
Qed.

Lemma resets_outcomes_witness :
  fst (resets [Deck.full; Deck.full; Deck.full] table5) !! 2%nat
    = Some (Raise IndexError) /\
  (is_ok (Raise IndexError : result Table) = true <->
   (dealer_id table5 + 1 + Z.of_nat 2) mod Z.of_nat (length (players table5)) + 2
     < Z.of_nat (length (players table5))).
Proof.
  assert (fst (resets [Deck.full; Deck.full; Deck.full] table5) !! 2%nat
          = Some (Raise IndexError)) as Hr by (vm_compute; reflexivity).
  split; [exact Hr|].
  apply (resets_outcomes [Deck.full; Deck.full; Deck.full] table5 2
           (Raise IndexError)).
  - cbn; lia.
  - reflexivity.
  - eexists; split; reflexivity.
  - cbn; lia.
  - repeat (apply Forall_cons; split; [exact (Permutation_refl Deck.full)|]).
    apply Forall_nil_2.
  - exact Hr.
Defined.

(** X21. On a table of at most 26 seats returned by the constructor,
    the call number [j] (from 0) of a run of consecutive calls of [reset]
    with shuffled full decks returns exactly when [(1 + j) % n + 2 < n]:
    out of every [n] consecutive hands the two that would put the dealer
    index on the last two seats are never dealt. *)
Theorem constructed_table_resets n st sb ms pick deck0 fresh s freshes
    (j : nat) r :
  init n st sb ms pick deck0 fresh = Ok s ->
  n <= 26 -> Deck.shuffled fresh -> Forall Deck.shuffled freshes ->
  fst (resets freshes s) !! j = Some r ->
  (is_ok r = true <-> (1 + Z.of_nat j) mod n + 2 < n).
Proof.
  intros Hinit Hn26 Hfresh Hfr Hr.
  assert (is_ok (init n st sb ms pick deck0 fresh) = true) as Hok
    by (by rewrite Hinit).
  apply init_returns_iff in Hok as (Hn & _ & _).
  destruct (init_state _ _ _ _ _ _ _ _ Hinit)
    as (Hd & Hlen & _ & _ & _ & _ & _ & Hdeck & Hact & Hseats).
  pose proof (resets_outcomes freshes s j r) as Hrun. cbv zeta in Hrun.
  rewrite Hlen, Hd, Z2Nat.id in Hrun by lia.
  apply Hrun; try done.
  - lia.
  - by rewrite Hact, length_seqZ.
  - destruct (lookup_lt_is_Some_2 (players s) (Z.to_nat n - 1)) as [p Hp];
      [lia|].
    exists p. split; [done|].
    by apply (Hseats _ _ Hp).
  - rewrite Hdeck, (Permutation_length Hfresh). cbn. lia.
Qed.

Lemma constructed_table_resets_witness :
  init 5 1000 10 1000 4 Deck.full Deck.full = Ok table5 /\
  fst (resets [Deck.full; Deck.full; Deck.full] table5) !! 2%nat
    = Some (Raise IndexError) /\
  (is_ok (Raise IndexError : result Table) = true <->
   (1 + Z.of_nat 2) mod 5 + 2 < 5).
Proof.
  assert (init 5 1000 10 1000 4 Deck.full Deck.full = Ok table5) as Hinit
    by (vm_compute; reflexivity).
  assert (fst (resets [Deck.full; Deck.full; Deck.full] table5) !! 2%nat
          = Some (Raise IndexError)) as Hr by (vm_compute; reflexivity).
  split; [exact Hinit|]. split; [exact Hr|].
  apply (constructed_table_resets 5 1000 10 1000 4 Deck.full Deck.full table5
           [Deck.full; Deck.full; Deck.full] 2 (Raise IndexError) Hinit).
  - lia.
  - exact (Permutation_refl Deck.full).
  - repeat (apply Forall_cons; split; [exact (Permutation_refl Deck.full)|]).
    apply Forall_nil_2.
  - exact Hr.
Defined.
